(** * cirq.value.linear_dict: a shallow embedding of [LinearDict]

    [LinearDict] subclasses Python's built-in [dict]; its methods mutate the
    receiver in place and several of them allocate fresh containers (copies
    and zero-cleaned snapshots).  The embedding therefore keeps an explicit
    store of objects and writes every method in a small state-and-exception
    monad over that store, statement by statement as in the source.

    - The storage of one object (the inherited [dict]) is a finite map
      [gmap K scalar].  Insertion order is not tracked.
    - The inherited methods reached through [super()] are the built-in
      [dict]'s, as CPython implements them from version 3.7.1 on.  All of
      them work on the storage directly, except [dict.copy]: for an instance
      of a subclass that overrides [__iter__], which [LinearDict] does, it
      builds the copy of a storage that is not empty from [self.keys()];
      [LinearDict.keys] begins with [self.copy()], so the two call each
      other until the interpreter raises RecursionError ([super_copy]).
    - Coefficients are abstract ([Scalar]): the methods only use [+], [-],
      unary [-], [*], [1 / a], [==], [abs(c)] and [complex(c)].  [abs] is
      partial: on a finite complex number whose modulus exceeds the binary64
      range it raises OverflowError.  [ScalarLaws] lists the few facts about
      [==], [abs] and [1 / a] that the proofs need.
    - [complex_Scalar] is Python's [complex]: a pair of IEEE-754 binary64
      numbers, with the Standard Library's [SpecFloat] for the arithmetic.
      A real coefficient [x] is the complex [x + 0j].  The C library's
      [hypot], behind [abs], is taken to round correctly.
    - Exceptions are values of [exn]; a raising computation returns the
      store as it was when the exception was raised. *)

From Stdlib Require Import ZArith String Ascii List Bool Lia.
From Stdlib Require Import SpecFloat DecimalString.
From stdpp Require Import base option list gmap strings.

Local Open Scope Z_scope.

(** ** Coefficients *)

(** The operations that [linear_dict.py] applies to coefficients and to the
    scalar operand of [*] and [/].  [abs] returns a [float]. *)
Class Scalar := {
  scalar : Type;
  s_zero : scalar;                              (* the literal [0] *)
  s_eqb : scalar -> scalar -> bool;             (* [x == y] *)
  s_add : scalar -> scalar -> scalar;           (* [x + y] *)
  s_sub : scalar -> scalar -> scalar;           (* [x - y] *)
  s_neg : scalar -> scalar;                     (* [-x] *)
  s_mul : scalar -> scalar -> scalar;           (* [x * y] *)
  s_inv : scalar -> option scalar;              (* [1 / x]; [None]: ZeroDivisionError *)
  s_abs : scalar -> option spec_float;          (* [abs(x)]; [None]: OverflowError *)
  s_complex : scalar -> scalar;                 (* [complex(x)] *)
  s_real : scalar -> spec_float;                (* [z.real] of a complex [z] *)
  s_imag : scalar -> spec_float                 (* [z.imag] of a complex [z] *)
}.

(** [c == 0] and [c != 0] against the integer literal. *)
Definition s_is_zero `{Scalar} (c : scalar) : bool := s_eqb c s_zero.
Definition s_nonzero `{Scalar} (c : scalar) : bool := negb (s_eqb c s_zero).

(** What the keys must offer besides hashing and equality: [<] for
    [sorted] and [str] for ['{!s}'], both used by [__format__] only. *)
Class Key (K : Type) := {
  key_ltb : K -> K -> bool;
  key_str : K -> string
}.

(** ** Exceptions, outcomes and the store monad *)

Inductive exn :=
  | ZeroDivisionError
  | OverflowError
  | RecursionError
  | KeyError
  | InvalidReference.   (* a reference to no object: never arises in Python *)

Inductive outcome (A : Type) :=
  | Ok (a : A)
  | Raise (e : exn).
Arguments Ok {A} a.
Arguments Raise {A} e.

(** A reference to an object: its index in the store. *)
Abbreviation loc := nat (only parsing).

(** A computation over a store of type [St]. *)
Definition M (St A : Type) : Type := St -> outcome A * St.

Definition ret {St A} (a : A) : M St A := fun h => (Ok a, h).

Definition bind {St A B} (m : M St A) (f : A -> M St B) : M St B :=
  fun h => match m h with
           | (Ok a, h') => f a h'
           | (Raise e, h') => (Raise e, h')
           end.

Definition raise {St A} (e : exn) : M St A := fun h => (Raise e, h).

Declare Scope py_scope.
Delimit Scope py_scope with py.
Notation "x <- m ;; k" := (bind m (fun x => k))
  (at level 20, m at level 99, k at level 200, only parsing) : py_scope.
Notation "m ;;; k" := (bind m (fun _ => k))
  (at level 100, k at level 200, right associativity, only parsing) : py_scope.
Local Open Scope py_scope.

(** [for x in l: body(x)] *)
Fixpoint for_each {St A} (l : list A) (body : A -> M St unit) : M St unit :=
  match l with
  | [] => ret tt
  | x :: l' => body x ;;; for_each l' body
  end.

(** [all(test(x) for x in l)]: stops at the first false. *)
Fixpoint all_of {St A} (l : list A) (test : A -> M St bool) : M St bool :=
  match l with
  | [] => ret true
  | x :: l' => b <- test x ;; if b then all_of l' test else ret false
  end.

(** [[x for x in l if test(x)]] *)
Fixpoint select {St A} (l : list A) (test : A -> M St bool) : M St (list A) :=
  match l with
  | [] => ret []
  | x :: l' =>
      b <- test x ;;
      rest <- select l' test ;;
      ret (if b then x :: rest else rest)
  end.

(** The store: one object per location, each the entries of its [dict]. *)
Abbreviation heap K := (list (gmap K scalar)) (only parsing).

Section Store.
Context {K : Type} `{Countable K} {S : Scalar}.

Definition read (self : loc) : M (heap K) (gmap K scalar) :=
  fun h => match h !! self with
           | Some d => (Ok d, h)
           | None => (Raise InvalidReference, h)
           end.

Definition write (self : loc) (d : gmap K scalar) : M (heap K) unit :=
  fun h => match h !! self with
           | Some _ => (Ok tt, <[self := d]> h)
           | None => (Raise InvalidReference, h)
           end.

Definition alloc (d : gmap K scalar) : M (heap K) loc :=
  fun h => (Ok (length h), h ++ [d]).

End Store.

(** ** The inherited [dict] methods, reached through [super()] *)

Section BuiltinDict.
Context {K : Type} `{Countable K} {S : Scalar}.

(** A plain [dict] built from (key, value) pairs, later pairs overwriting
    earlier ones: what [dict(pairs)], a dict comprehension and
    [dict.update] do. *)
Definition dict_update (d : gmap K scalar) (pairs : list (K * scalar))
  : gmap K scalar :=
  foldl (fun acc p => <[p.1 := p.2]> acc) d pairs.

(** [dict.fromkeys(vectors, value)] *)
Definition dict_fromkeys (vectors : list K) (value : scalar) : gmap K scalar :=
  dict_update ∅ (map (fun v => (v, value)) vectors).

(** [d.items()] of a plain dict, as the pairs an iteration visits. *)
Definition dict_items (d : gmap K scalar) : list (K * scalar) := map_to_list d.

Definition super_items (self : loc) : M (heap K) (list (K * scalar)) :=
  d <- read self ;; ret (dict_items d).

Definition super_keys (self : loc) : M (heap K) (list K) :=
  d <- read self ;; ret (dict_items d).*1.

Definition super_values (self : loc) : M (heap K) (list scalar) :=
  d <- read self ;; ret (dict_items d).*2.

(** [super().get(vector, default)] *)
Definition super_get (self : loc) (vector : K) (default : scalar) : M (heap K) scalar :=
  d <- read self ;; ret (match d !! vector with Some c => c | None => default end).

(** [super().get(vector)]: [None] when absent. *)
Definition super_get_none (self : loc) (vector : K) : M (heap K) (option scalar) :=
  d <- read self ;; ret (d !! vector).

Definition super_contains (self : loc) (vector : K) : M (heap K) bool :=
  d <- read self ;; ret (bool_decide (is_Some (d !! vector))).

Definition super_getitem (self : loc) (vector : K) : M (heap K) scalar :=
  d <- read self ;;
  match d !! vector with
  | Some c => ret c
  | None => raise KeyError
  end.

Definition super_setitem (self : loc) (vector : K) (coefficient : scalar) : M (heap K) unit :=
  d <- read self ;; write self (<[vector := coefficient]> d).

Definition super_delitem (self : loc) (vector : K) : M (heap K) unit :=
  d <- read self ;;
  match d !! vector with
  | Some _ => write self (delete vector d)
  | None => raise KeyError
  end.

Definition super_update (self : loc) (pairs : list (K * scalar)) : M (heap K) unit :=
  d <- read self ;; write self (dict_update d pairs).

(** [super().copy()], that is [dict.copy] on an instance of [LinearDict].
    An empty storage ([ma_used == 0]) gives a new empty dict at once.
    Otherwise the copy is taken entry by entry from [self.keys()], the
    type not keeping [dict]'s own [__iter__]; that is [LinearDict.keys],
    whose first step is [self.copy()], which is here again: the calls nest
    until the interpreter raises RecursionError.  Nothing is written
    before that. *)
Definition super_copy (self : loc) : M (heap K) (gmap K scalar) :=
  d <- read self ;;
  if Nat.eqb (size d) 0 then ret ∅
  else raise RecursionError.

End BuiltinDict.

(** ** [class LinearDict] *)

(** Values a caller may pass where the source says [Any] or a default. *)
Inductive pyval `{Scalar} (D : Type) :=
  | Num (c : scalar)
  | PyNone
  | Obj (d : D).
Arguments Num {_ D} c.
Arguments PyNone {_ D}.
Arguments Obj {_ D} d.

(** The right operand of [==] and [!=]: a [LinearDict] or anything else. *)
Inductive operand :=
  | LinearDictRef (other : loc)
  | NotALinearDict.

(** What [__eq__] and [__ne__] return. *)
Inductive comparison_result :=
  | PyBool (b : bool)
  | NotImplemented.

(** Binary64 constants. *)
Definition b64_zero : spec_float := S754_zero false.
Definition b64_of_Z (n : Z) : spec_float := binary_normalize 53 1024 n 0 false.
Definition b64_div : spec_float -> spec_float -> spec_float := SFdiv 53 1024.

(** The literal [1e-9]: the binary64 number nearest to 10^-9. *)
Definition atol_default : spec_float := b64_div (b64_of_Z 1) (b64_of_Z (10 ^ 9)).

Section LinearDict.
Context {K : Type} `{Countable K} {S : Scalar}.

(** [abs(c)] *)
Definition py_abs (c : scalar) : M (heap K) spec_float :=
  match s_abs c with
  | Some a => ret a
  | None => raise OverflowError
  end.

(** [def clean(self, *, atol=1e-9)]; [None] is the omitted keyword.  The
    comprehension is evaluated in full, [abs] included, before the first
    [del]. *)
Definition clean (self : loc) (atol : option spec_float) : M (heap K) loc :=
  let atol := match atol with Some a => a | None => atol_default end in
  its <- super_items self ;;
  negligible <- select its (fun p => a <- py_abs p.2 ;; ret (SFleb a atol)) ;;
  for_each negligible.*1 (fun v => super_delitem self v) ;;;
  ret self.

(** [def update(self, *args, **kwargs)], positional form. *)
Definition update (self : loc) (terms : list (K * scalar)) : M (heap K) unit :=
  super_update self terms ;;;
  clean self (Some b64_zero) ;;;
  ret tt.

(** [def __init__(self, terms)] on the freshly created empty object. *)
Definition __init__ (self : loc) (terms : list (K * scalar)) : M (heap K) unit :=
  update self terms.

(** The constructor call [LinearDict(terms)]. *)
Definition LinearDict (terms : list (K * scalar)) : M (heap K) loc :=
  self <- alloc ∅ ;;
  __init__ self terms ;;;
  ret self.

(** [def fromkeys(cls, vectors, coefficient=0)]; [None] is the omitted
    argument. *)
Definition fromkeys (vectors : list K) (coefficient : option scalar) : M (heap K) loc :=
  let coefficient := match coefficient with Some c => c | None => s_zero end in
  LinearDict (dict_items (dict_fromkeys vectors (s_complex coefficient))).

Definition copy (self : loc) : M (heap K) loc :=
  d <- super_copy self ;; LinearDict (dict_items d).

Definition keys (self : loc) : M (heap K) (list K) :=
  c <- copy self ;;
  snapshot <- clean c (Some b64_zero) ;;
  super_keys snapshot.

Definition values (self : loc) : M (heap K) (list scalar) :=
  c <- copy self ;;
  snapshot <- clean c (Some b64_zero) ;;
  super_values snapshot.

Definition items (self : loc) : M (heap K) (list (K * scalar)) :=
  c <- copy self ;;
  snapshot <- clean c (Some b64_zero) ;;
  super_items snapshot.

(** [def get(self, vector, default=0)] *)
Definition get {D} (self : loc) (vector : K) (default : pyval D) : M (heap K) (pyval D) :=
  c0 <- super_get self vector s_zero ;;
  if s_is_zero c0 then ret default
  else
    r <- super_get_none self vector ;;
    ret (match r with Some c => Num c | None => PyNone end).

(** The default of [get]'s parameter: [default=0]. *)
Definition get_default_arg {D} : pyval D := Num s_zero.

Definition __contains__ (self : loc) (vector : K) : M (heap K) bool :=
  b <- super_contains self vector ;;
  if b then c <- super_getitem self vector ;; ret (s_nonzero c)
  else ret false.

Definition __getitem__ (self : loc) (vector : K) : M (heap K) scalar :=
  super_get self vector s_zero.

Definition __setitem__ (self : loc) (vector : K) (coefficient : scalar) : M (heap K) unit :=
  if s_nonzero coefficient then super_setitem self vector coefficient
  else
    b <- super_contains self vector ;;
    if b then super_delitem self vector else ret tt.

Definition __iter__ (self : loc) : M (heap K) (list K) :=
  c <- copy self ;;
  snapshot <- clean c (Some b64_zero) ;;
  super_keys snapshot.

Definition __len__ (self : loc) : M (heap K) nat :=
  its <- items self ;;
  ret (length (filter (fun p => s_nonzero p.2) its)).

Definition __iadd__ (self other : loc) : M (heap K) loc :=
  its <- items other ;;
  for_each its (fun p =>
    let vector := p.1 in
    let other_coefficient := p.2 in
    old_coefficient <- super_get self vector s_zero ;;
    let new_coefficient := s_add old_coefficient other_coefficient in
    super_setitem self vector new_coefficient) ;;;
  clean self (Some b64_zero) ;;;
  ret self.

Definition __add__ (self other : loc) : M (heap K) loc :=
  result <- copy self ;;
  result <- __iadd__ result other ;;
  ret result.

Definition __isub__ (self other : loc) : M (heap K) loc :=
  its <- items other ;;
  for_each its (fun p =>
    let vector := p.1 in
    let other_coefficient := p.2 in
    old_coefficient <- super_get self vector s_zero ;;
    let new_coefficient := s_sub old_coefficient other_coefficient in
    super_setitem self vector new_coefficient) ;;;
  clean self (Some b64_zero) ;;;
  ret self.

Definition __sub__ (self other : loc) : M (heap K) loc :=
  result <- copy self ;;
  result <- __isub__ result other ;;
  ret result.

Definition __neg__ (self : loc) : M (heap K) loc :=
  its <- items self ;;
  LinearDict (dict_items (dict_update ∅ (map (fun p => (p.1, s_neg p.2)) its))).

Definition __imul__ (self : loc) (a : scalar) : M (heap K) loc :=
  vs <- __iter__ self ;;
  for_each vs (fun vector =>
    c <- __getitem__ self vector ;;
    __setitem__ self vector (s_mul c a)) ;;;
  clean self (Some b64_zero) ;;;
  ret self.

Definition __mul__ (self : loc) (a : scalar) : M (heap K) loc :=
  result <- copy self ;;
  result <- __imul__ result a ;;
  ret result.

Definition __rmul__ (self : loc) (a : scalar) : M (heap K) loc :=
  __mul__ self a.

Definition __truediv__ (self : loc) (a : scalar) : M (heap K) loc :=
  match s_inv a with
  | Some r => __mul__ self r
  | None => raise ZeroDivisionError
  end.

Definition __bool__ (self : loc) : M (heap K) bool :=
  vs <- values self ;;
  ret (negb (forallb s_is_zero vs)).

Definition __eq__ (self : loc) (other : operand) : M (heap K) comparison_result :=
  match other with
  | NotALinearDict => ret NotImplemented
  | LinearDictRef other =>
      ks <- keys self ;;
      ko <- keys other ;;
      let all_vs : gset K := list_to_set ks ∪ list_to_set ko in
      b <- all_of (elements all_vs) (fun v =>
             x <- __getitem__ self v ;;
             y <- __getitem__ other v ;;
             ret (s_eqb x y)) ;;
      ret (PyBool b)
  end.

(** [not self == other]: here [other] is a [LinearDict], so [==] is decided
    by [__eq__] and yields a [bool]; had it answered [NotImplemented], [==]
    would fall back on identity. *)
Definition __ne__ (self : loc) (other : operand) : M (heap K) comparison_result :=
  match other with
  | NotALinearDict => ret NotImplemented
  | LinearDictRef o =>
      r <- __eq__ self other ;;
      ret (match r with
           | PyBool b => PyBool (negb b)
           | NotImplemented => PyBool (negb (bool_decide (self = o)))
           end)
  end.

(** [def _approx_eq_(self, other, atol)] *)
Definition _approx_eq_ (self : loc) (other : operand) (atol : spec_float)
  : M (heap K) comparison_result :=
  match other with
  | NotALinearDict => ret NotImplemented
  | LinearDictRef other =>
      ks <- keys self ;;
      ko <- keys other ;;
      let all_vs : gset K := list_to_set ks ∪ list_to_set ko in
      b <- all_of (elements all_vs) (fun v =>
             x <- __getitem__ self v ;;
             y <- __getitem__ other v ;;
             a <- py_abs (s_sub x y) ;;
             ret (SFltb a atol)) ;;
      ret (PyBool b)
  end.

End LinearDict.

(** ** String rendering *)

(** The format specifications modelled: ['.<precision>f'] and, with
    [plus_sign], ['+.<precision>f'].  [__str__] uses ['.3f']. *)
Record format_spec := FixedPoint { plus_sign : bool; precision : nat }.

(** The integer nearest to [m * 2^e * 10^p], ties to even: the digits that
    a correctly rounded fixed-point conversion prints. *)
Definition scaled_round (m : positive) (e : Z) (p : nat) : Z :=
  let n := Z.pos m * 10 ^ Z.of_nat p in
  if 0 <=? e then n * 2 ^ e
  else
    let d := 2 ^ (- e) in
    let q := n / d in
    let r := n mod d in
    match Z.compare (2 * r) d with
    | Lt => q
    | Gt => q + 1
    | Eq => if Z.even q then q else q + 1
    end.

Definition digit_char (n : Z) : ascii := ascii_of_nat (48 + Z.to_nat n).

(** The lowest [p] decimal digits of [n], zero padded. *)
Fixpoint frac_digits (p : nat) (n : Z) : string :=
  match p with
  | O => EmptyString
  | Datatypes.S p' => frac_digits p' (n / 10) +:+ String (digit_char (n mod 10)) EmptyString
  end.

Definition int_digits (n : Z) : string := NilZero.string_of_uint (N.to_uint (Z.to_N n)).

Definition fixed_digits (n : Z) (p : nat) : string :=
  match p with
  | O => int_digits n
  | _ => int_digits (n / 10 ^ Z.of_nat p) +:+ "." +:+ frac_digits p (n mod 10 ^ Z.of_nat p)
  end.

Definition sign_str (plus negative : bool) : string :=
  if negative then "-" else if plus then "+" else "".

(** ['{:{fmt}}'.format(x, fmt=format_spec)] for a float [x]. *)
Definition format_float (fs : format_spec) (x : spec_float) : string :=
  match x with
  | S754_nan => sign_str (plus_sign fs) false +:+ "nan"
  | S754_infinity s => sign_str (plus_sign fs) s +:+ "inf"
  | S754_zero s => sign_str (plus_sign fs) s +:+ fixed_digits 0 (precision fs)
  | S754_finite s m e =>
      sign_str (plus_sign fs) s +:+ fixed_digits (scaled_round m e (precision fs)) (precision fs)
  end.

Definition str_head (s : string) : option ascii :=
  match s with
  | EmptyString => None
  | String c _ => Some c
  end.

Definition str_tail (s : string) : string :=
  match s with
  | EmptyString => EmptyString
  | String _ t => t
  end.

Definition head_is (c : ascii) (s : string) : bool :=
  match str_head s with
  | Some c' => Ascii.eqb c c'
  | None => false
  end.

Fixpoint all_chars (test : ascii -> bool) (s : string) : bool :=
  match s with
  | EmptyString => true
  | String c t => test c && all_chars test t
  end.

(** [float(s) == 0] for a string [s] that [format_float] produced: after the
    sign only the digit 0 and the point occur. *)
Definition float_str_is_zero (s : string) : bool :=
  let body := if head_is "-" s || head_is "+" s then str_tail s else s in
  all_chars (fun c => Ascii.eqb c "0" || Ascii.eqb c ".") body.

Section Format.
Context {K : Type} `{Countable K} {KK : Key K} {S : Scalar}.

Definition _format_coefficient (fs : format_spec) (coefficient : scalar) : string :=
  let coefficient := s_complex coefficient in
  let real_str := format_float fs (s_real coefficient) in
  let imag_str := format_float fs (s_imag coefficient) in
  if float_str_is_zero real_str && float_str_is_zero imag_str then ""
  else if float_str_is_zero imag_str then real_str
  else if float_str_is_zero real_str then imag_str +:+ "j"
  else if head_is "-" real_str && head_is "-" imag_str then
    "-(" +:+ str_tail real_str +:+ "+" +:+ str_tail imag_str +:+ "j)"
  else if head_is "+" imag_str || head_is "-" imag_str then
    "(" +:+ real_str +:+ imag_str +:+ "j)"
  else "(" +:+ real_str +:+ "+" +:+ imag_str +:+ "j)".

Definition _format_term (fs : format_spec) (vector : K) (coefficient : scalar) : string :=
  let coefficient_str := _format_coefficient fs coefficient in
  match coefficient_str with
  | EmptyString => coefficient_str
  | _ =>
      let result := coefficient_str +:+ "*" +:+ key_str vector in
      if head_is "+" result || head_is "-" result then result
      else "+" +:+ result
  end.

(** [sorted(l)]: a stable insertion sort by the keys' [<]. *)
Fixpoint sorted_insert (x : K) (l : list K) : list K :=
  match l with
  | [] => [x]
  | y :: l' => if key_ltb y x then y :: sorted_insert x l' else x :: l
  end.

Definition sorted (l : list K) : list K := foldr sorted_insert [] l.

(** [[f(v) for v in l]] *)
Fixpoint list_comp {A B} (l : list A) (f : A -> M (heap K) B) : M (heap K) (list B) :=
  match l with
  | [] => ret []
  | x :: l' => y <- f x ;; ys <- list_comp l' f ;; ret (y :: ys)
  end.

Definition __format__ (self : loc) (fs : format_spec) : M (heap K) string :=
  ks <- keys self ;;
  formatted_terms <- list_comp (sorted ks) (fun v =>
    c <- __getitem__ self v ;; ret (_format_term fs v c)) ;;
  let s := String.concat "" formatted_terms in
  match s with
  | EmptyString => ret (format_float fs (b64_of_Z 0))
  | String c t => if Ascii.eqb c "+" then ret t else ret s
  end.

Definition __str__ (self : loc) : M (heap K) string :=
  __format__ self (FixedPoint false 3).

(** [def _repr_pretty_(self, p, cycle)]: the result is the text handed to
    [p.text]. *)
Definition _repr_pretty_ (self : loc) (cycle : bool) : M (heap K) string :=
  if cycle then ret "LinearDict(...)"
  else __str__ self.

End Format.

(** ** Python's [complex]: pairs of binary64 numbers *)

Definition b64_add : spec_float -> spec_float -> spec_float := SFadd 53 1024.
Definition b64_sub : spec_float -> spec_float -> spec_float := SFsub 53 1024.
Definition b64_mul : spec_float -> spec_float -> spec_float := SFmul 53 1024.
Definition b64_nan : spec_float := S754_nan.
Definition b64_inf : spec_float := S754_infinity false.

Definition complex : Type := spec_float * spec_float.

Definition c_of_Z (n : Z) : complex := (b64_of_Z n, b64_zero).

Definition c_eqb (a b : complex) : bool := SFeqb a.1 b.1 && SFeqb a.2 b.2.
Definition c_add (a b : complex) : complex := (b64_add a.1 b.1, b64_add a.2 b.2).
Definition c_sub (a b : complex) : complex := (b64_sub a.1 b.1, b64_sub a.2 b.2).
Definition c_neg (a : complex) : complex := (SFopp a.1, SFopp a.2).
Definition c_mul (a b : complex) : complex :=
  (b64_sub (b64_mul a.1 b.1) (b64_mul a.2 b.2),
   b64_add (b64_mul a.1 b.2) (b64_mul a.2 b.1)).

(** [x < 0 ? -x : x] *)
Definition b64_absval (x : spec_float) : spec_float :=
  if SFltb x b64_zero then SFopp x else x.

(** Complex division as the interpreter computes it; [None] is the
    ZeroDivisionError it raises when the divisor is zero. *)
Definition c_quot (a b : complex) : option complex :=
  let abs_breal := b64_absval b.1 in
  let abs_bimag := b64_absval b.2 in
  if SFleb abs_bimag abs_breal then
    if SFeqb abs_breal b64_zero then None
    else
      let ratio := b64_div b.2 b.1 in
      let denom := b64_add b.1 (b64_mul b.2 ratio) in
      Some (b64_div (b64_add a.1 (b64_mul a.2 ratio)) denom,
            b64_div (b64_sub a.2 (b64_mul a.1 ratio)) denom)
  else if SFleb abs_breal abs_bimag then
    let ratio := b64_div b.1 b.2 in
    let denom := b64_add (b64_mul b.1 ratio) b.2 in
    Some (b64_div (b64_add (b64_mul a.1 ratio) a.2) denom,
          b64_div (b64_sub (b64_mul a.2 ratio) a.1) denom)
  else Some (b64_nan, b64_nan).

(** The magnitude of a finite binary64 number in units of [2^e0]. *)
Definition b64_units (x : spec_float) (e0 : Z) : Z :=
  match x with
  | S754_finite _ m e => Z.pos m * 2 ^ (e - e0)
  | _ => 0
  end.

Definition b64_exponent (x : spec_float) : Z :=
  match x with
  | S754_finite _ _ e => e
  | _ => 0
  end.

Definition b64_is_inf (x : spec_float) : bool :=
  match x with S754_infinity _ => true | _ => false end.
Definition b64_is_nan (x : spec_float) : bool :=
  match x with S754_nan => true | _ => false end.
Definition b64_is_zero (x : spec_float) : bool :=
  match x with S754_zero _ => true | _ => false end.

Definition b64_is_finite (x : spec_float) : bool :=
  match x with S754_zero _ | S754_finite _ _ _ => true | _ => false end.

(** C's [hypot(x, y)] for two finite numbers, correctly rounded: the
    binary64 number nearest to the square root of [x*x + y*y], the sum
    taken exactly; plus infinity when that root exceeds the range. *)
Definition b64_hypot (x y : spec_float) : spec_float :=
  let e0 := Z.min (b64_exponent x) (b64_exponent y) in
  match b64_units x e0 * b64_units x e0 + b64_units y e0 * b64_units y e0 with
  | Zpos n => SFsqrt 53 1024 (S754_finite false n (2 * e0))
  | _ => b64_zero
  end.

(** [abs(z)] of a complex, as the interpreter computes it: infinity when a
    part is infinite, else NaN when a part is NaN, else [hypot] of the
    parts, and OverflowError ([None]) when that is not finite.  [hypot] of
    two zeros is zero; of two binary64 numbers that are not both zero it is
    a positive number or plus infinity ([b64_hypot_positive] below), so the
    last branch is the infinite result. *)
Definition c_abs (z : complex) : option spec_float :=
  if b64_is_inf z.1 || b64_is_inf z.2 then Some b64_inf
  else if b64_is_nan z.1 || b64_is_nan z.2 then Some b64_nan
  else if b64_is_zero z.1 && b64_is_zero z.2 then Some b64_zero
  else
    match b64_hypot z.1 z.2 with
    | S754_finite false m e => Some (S754_finite false m e)
    | _ => None
    end.

#[export] Instance complex_Scalar : Scalar := {|
  scalar := complex;
  s_zero := c_of_Z 0;
  s_eqb := c_eqb;
  s_add := c_add;
  s_sub := c_sub;
  s_neg := c_neg;
  s_mul := c_mul;
  s_inv := c_quot (c_of_Z 1);
  s_abs := c_abs;
  s_complex := fun z => z;
  s_real := fst;
  s_imag := snd
|}.

(** Keys that are Python strings: ordered by code point, printed as they are. *)
#[export] Instance string_Key : Key string := {|
  key_ltb := String.ltb;
  key_str := fun s => s
|}.

(** ** What the numbers must satisfy *)

(** Facts about [==], [abs] and [1 / x] that hold of every Python number,
    NaN and the infinities included: [0 == 0]; where [abs(c)] is defined,
    [abs(c) <= 0] says as much as [c == 0]; and [1 / a] raises exactly
    when [a == 0]. *)
Record ScalarLaws (S : Scalar) : Prop := {
  law_zero_eq : s_eqb s_zero s_zero = true;
  law_abs_zero : forall c a, s_abs c = Some a -> SFleb a b64_zero = s_eqb c s_zero;
  law_inv_zero : forall a, s_inv a = None <-> s_eqb a s_zero = true
}.
Arguments law_zero_eq {S} _.
Arguments law_abs_zero {S} _ c a.
Arguments law_inv_zero {S} _ a.

(** ** Denotations: what each method does to the receiver's entries *)

Section Denotations.
Context {K : Type} `{Countable K} {S : Scalar}.

(** [d[k]] as [__getitem__] reads it. *)
Definition coef (d : gmap K scalar) (k : K) : scalar :=
  match d !! k with Some c => c | None => s_zero end.

(** [abs(c)] is defined for every stored coefficient [c]. *)
Definition abs_defined (d : gmap K scalar) : bool :=
  forallb (fun p => match s_abs p.2 with Some _ => true | None => false end)
          (dict_items d).

(** [abs(c) <= atol], where [abs(c)] is defined. *)
Definition abs_le (atol : spec_float) (c : scalar) : bool :=
  match s_abs c with
  | Some a => SFleb a atol
  | None => false
  end.

(** The entries that [clean(atol)] keeps. *)
Definition drop_le (atol : spec_float) (d : gmap K scalar) : gmap K scalar :=
  filter (fun p => abs_le atol p.2 = false) d.

(** The entries with a coefficient [!= 0]. *)
Definition drop_zeros (d : gmap K scalar) : gmap K scalar :=
  filter (fun p => s_eqb p.2 s_zero = false) d.

(** No stored coefficient is [== 0]. *)
Definition no_zero (d : gmap K scalar) : Prop :=
  forall k c, d !! k = Some c -> s_eqb c s_zero = false.

(** The value that the last pair for [k] in [l] carries. *)
Fixpoint last_write (k : K) (l : list (K * scalar)) : option scalar :=
  match l with
  | [] => None
  | p :: l' =>
      match last_write k l' with
      | Some c => Some c
      | None => if decide (p.1 = k) then Some p.2 else None
      end
  end.

(** What [__setitem__] does to the entries. *)
Definition setitem (d : gmap K scalar) (v : K) (c : scalar) : gmap K scalar :=
  if s_nonzero c then <[v := c]> d else delete v d.

(** Every object of the store is zero-free. *)
Definition heap_no_zero (h : heap K) : Prop :=
  forall l d, h !! l = Some d -> no_zero d.

(** Every object of [h] is still there, unchanged, in [h']. *)
Definition preserved (h h' : heap K) : Prop :=
  forall l d, h !! l = Some d -> h' !! l = Some d.

(** The object at [l], if [h] has one, is unchanged in [h']. *)
Definition preserved_at (l : loc) (h h' : heap K) : Prop :=
  forall d, h !! l = Some d -> h' !! l = Some d.

End Denotations.

(** ** Programs: sequences of public operations *)

Section Programs.
Context {K : Type} `{Countable K} {S : Scalar}.

(** One call of a public operation; the results of the value-returning
    ones are new objects of the store, which later calls can refer to. *)
Inductive command :=
  | CallLinearDict (terms : list (K * scalar))
  | CallFromkeys (vectors : list K) (coefficient : option scalar)
  | CallUpdate (self : loc) (terms : list (K * scalar))
  | CallSetitem (self : loc) (vector : K) (coefficient : scalar)
  | CallClean (self : loc) (atol : option spec_float)
  | CallIadd (self other : loc)
  | CallIsub (self other : loc)
  | CallImul (self : loc) (a : scalar)
  | CallAdd (self other : loc)
  | CallSub (self other : loc)
  | CallMul (self : loc) (a : scalar)
  | CallRmul (self : loc) (a : scalar)
  | CallTruediv (self : loc) (a : scalar)
  | CallNeg (self : loc)
  | CallCopy (self : loc).

Definition exec (c : command) : M (heap K) unit :=
  match c with
  | CallLinearDict terms => LinearDict terms ;;; ret tt
  | CallFromkeys vectors coefficient => fromkeys vectors coefficient ;;; ret tt
  | CallUpdate self terms => update self terms
  | CallSetitem self vector coefficient => __setitem__ self vector coefficient
  | CallClean self atol => clean self atol ;;; ret tt
  | CallIadd self other => __iadd__ self other ;;; ret tt
  | CallIsub self other => __isub__ self other ;;; ret tt
  | CallImul self a => __imul__ self a ;;; ret tt
  | CallAdd self other => __add__ self other ;;; ret tt
  | CallSub self other => __sub__ self other ;;; ret tt
  | CallMul self a => __mul__ self a ;;; ret tt
  | CallRmul self a => __rmul__ self a ;;; ret tt
  | CallTruediv self a => __truediv__ self a ;;; ret tt
  | CallNeg self => __neg__ self ;;; ret tt
  | CallCopy self => copy self ;;; ret tt
  end.

(** The store after a program; a call that raises leaves the store as it
    was when the exception was raised and the program goes on. *)
Definition exec_all (cs : list command) (h : heap K) : heap K :=
  foldl (fun h c => (exec c h).2) h cs.

(** How each call of the program ended. *)
Fixpoint outcomes (cs : list command) (h : heap K) : list (outcome unit) :=
  match cs with
  | [] => []
  | c :: cs' => (exec c h).1 :: outcomes cs' (exec c h).2
  end.

End Programs.


(** ** Statements shared by the theorems *)

Section Statements.
Context {K : Type} `{Countable K} {S : Scalar}.

(** What a stored coefficient [x] leaves behind after zero-elision. *)
Definition stored (x : scalar) : option scalar :=
  if s_eqb x s_zero then None else Some x.

(** No way of observing the object at [self], which holds [d], shows an
    entry with a zero coefficient: the subscript reads a stored zero as it
    reads a missing key, [get] and [in] treat it as missing, and the
    enumerations and [len] return, when they do, with nothing to show. *)
Definition zero_hidden (h : heap K) (self : loc) (d : gmap K scalar) : Prop :=
  (forall v, exists c,
     __getitem__ self v h = (Ok c, h) /\
     match drop_zeros d !! v with
     | Some c' => c = c'
     | None => s_eqb c s_zero = true
     end) /\
  (forall D v (default : pyval D),
     (get self v default h).1
     = Ok (match drop_zeros d !! v with Some c => Num c | None => default end)) /\
  (forall v, (__contains__ self v h).1
             = Ok (bool_decide (is_Some (drop_zeros d !! v)))) /\
  (forall its, (items self h).1 = Ok its -> its = []) /\
  (forall ks, (keys self h).1 = Ok ks -> ks = []) /\
  (forall vs, (values self h).1 = Ok vs -> vs = []) /\
  (forall ks, (__iter__ self h).1 = Ok ks -> ks = []) /\
  (forall n, (__len__ self h).1 = Ok n -> n = 0%nat).

(** The computation [m] returns a reference to an object that did not
    exist in [h], holding [result], and changes no object of [h]. *)
Definition returns_new (h : heap K) (m : M (heap K) loc) (result : gmap K scalar) : Prop :=
  exists r h', m h = (Ok r, h') /\ h !! r = None /\ h' !! r = Some result /\
               preserved h h'.

(** The computation [m] raises [e] and leaves the store as it was. *)
Definition raises {A} (h : heap K) (m : M (heap K) A) (e : exn) : Prop :=
  m h = (Raise e, h).

(** What a subscript read finds where [x] was stored and zero-elided. *)
Definition reads (x : scalar) : scalar :=
  match stored x with Some y => y | None => s_zero end.

(** Started in a zero-free store, [m] ends in one, unless it is
    OverflowError that it raises. *)
Definition keeps_no_zero {A} (m : M (heap K) A) : Prop :=
  forall h, heap_no_zero h -> (m h).1 <> Raise OverflowError -> heap_no_zero (m h).2.

End Statements.

(** ** Shapes of rendered terms *)

(** A formatted term is empty, or starts with [-], or starts with [+]
    followed by something that is not empty and does not start with [+]. *)
Definition signed_term (s : string) : bool :=
  match s with
  | EmptyString => true
  | String c t =>
      if Ascii.eqb c "-" then true
      else if Ascii.eqb c "+" then
        match t with
        | EmptyString => false
        | String c' _ => negb (Ascii.eqb c' "+")
        end
      else false
  end.

(** [|x| <= 0.5 * 10^-p]: the numbers that print as zero with [p] digits
    after the point. *)
Definition b64_rounds_to_zero (p : nat) (x : spec_float) : bool :=
  match x with
  | S754_zero _ => true
  | S754_finite _ m e => (e <? 0) && (2 * Z.pos m * 10 ^ Z.of_nat p <=? 2 ^ (- e))
  | _ => false
  end.

Definition rounds_to_zero {S : Scalar} (p : nat) (c : scalar) : bool :=
  b64_rounds_to_zero p (s_real (s_complex c)) &&
  b64_rounds_to_zero p (s_imag (s_complex c)).

(** ** Concrete stores, with string keys and complex coefficients *)

Definition one_entry (k : string) (c : complex) : gmap string complex := {[ k := c ]}.

Definition empty_store : heap string := [].

(** A store holding the two containers [{x: 1}] and [{x: 2}]. *)
Definition store_x1_x2 : heap string :=
  [one_entry "x" (c_of_Z 1); one_entry "x" (c_of_Z 2)].

(** A store holding two empty containers. *)
Definition store_empties : heap string := [∅; ∅].

(** 1e-10, as a complex number. *)
Definition c_1e_10 : complex := (b64_div (b64_of_Z 1) (b64_of_Z (10 ^ 10)), b64_zero).

(** [complex(1e-9, 1e-20)]: its modulus rounds to 1e-9. *)
Definition c_near_atol : complex :=
  (atol_default, b64_div (b64_of_Z 1) (b64_of_Z (10 ^ 20))).

(** [complex(1.5e308, 1.5e308)]: finite, with a modulus beyond the range. *)
Definition c_huge : complex := (b64_of_Z (15 * 10 ^ 307), b64_of_Z (15 * 10 ^ 307)).

(** A store holding the container [{x: 1e-10, y: 1, z: 1e-9+1e-20j}]. *)
Definition store_tiny : heap string :=
  [<["z" := c_near_atol]> (<["x" := c_1e_10]> (one_entry "y" (c_of_Z 1)))].

(** A store holding the container [{x: 1.5e308+1.5e308j}]. *)
Definition store_huge : heap string := [one_entry "x" c_huge].

(** A store holding [{x: 1, z: 0}], the zero entry as an interrupted
    [update] leaves it, and the empty container. *)
Definition store_padded : heap string :=
  [<["z" := c_of_Z 0]> (one_entry "x" (c_of_Z 1)); ∅].

(** A program that exercises construction, a subscript write, [clean],
    [+=] and [*=] on an empty container, [-] and a division by zero. *)
Definition sample_program : list (@command string complex_Scalar) :=
  [CallLinearDict [("x", c_of_Z 1); ("y", c_of_Z 0)];
   CallFromkeys ["p"; "q"] None;
   CallSetitem 1%nat "p" c_1e_10;
   CallClean 1%nat None;
   CallIadd 0%nat 1%nat;
   CallImul 1%nat (c_of_Z 0);
   CallSub 1%nat 0%nat;
   CallTruediv 0%nat (c_of_Z 0)].

(** [a = LinearDict({})], then [a.update([("y", 0j), ("x", 1.5e308+1.5e308j)])],
    which raises OverflowError, then [a["z"] = 1]. *)
Definition overflow_program : list (@command string complex_Scalar) :=
  [CallLinearDict [];
   CallUpdate 0%nat [("y", c_of_Z 0); ("x", c_huge)];
   CallSetitem 0%nat "z" (c_of_Z 1)].

(** ** Running computations *)

Section Run.
Context {K : Type} `{Countable K} {S : Scalar}.
Implicit Types (h : heap K) (d o : gmap K scalar) (self other : loc).

Lemma run_bind {St A B} (m : M St A) (f : A -> M St B) (s s' : St) (a : A) :
  m s = (Ok a, s') -> bind m f s = f a s'.
Proof. intros E. unfold bind. rewrite E. reflexivity. Qed.

Lemma run_bind_raise {St A B} (m : M St A) (f : A -> M St B) (s s' : St) (e : exn) :
  m s = (Raise e, s') -> bind m f s = (Raise e, s').
Proof. intros E. unfold bind. rewrite E. reflexivity. Qed.

Lemma read_ok h self d : h !! self = Some d -> read self h = (Ok d, h).
Proof. intros E. unfold read. rewrite E. reflexivity. Qed.

Lemma write_ok h self d d' :
  h !! self = Some d -> write self d' h = (Ok tt, <[self := d']> h).
Proof. intros E. unfold write. rewrite E. reflexivity. Qed.

Lemma lookup_written h self d d' :
  h !! self = Some d -> <[self := d']> h !! self = Some d'.
Proof.
  intros E. apply list_lookup_insert_eq. eapply lookup_lt_Some, E.
Qed.

Lemma insert_twice h self d1 d2 :
  <[self := d2]> (<[self := d1]> h) = <[self := d2]> h.
Proof. apply list_insert_insert_eq. Qed.

Lemma insert_same h self d : h !! self = Some d -> <[self := d]> h = h.
Proof. apply list_insert_id. Qed.

Lemma lookup_fresh h d : (h ++ [d]) !! length h = Some d.
Proof. rewrite lookup_app_r by lia. rewrite Nat.sub_diag. reflexivity. Qed.

Lemma lookup_old h d' self d : h !! self = Some d -> (h ++ [d']) !! self = Some d.
Proof. intros E. rewrite lookup_app_l; [exact E | eapply lookup_lt_Some, E]. Qed.

Lemma insert_fresh h d d' : <[length h := d']> (h ++ [d]) = h ++ [d'].
Proof.
  rewrite insert_app_r_alt by lia. rewrite Nat.sub_diag. reflexivity.
Qed.

End Run.

(** ** The built-in dict *)

Section DictFacts.
Context {K : Type} `{Countable K} {S : Scalar}.
Implicit Types (h : heap K) (d o : gmap K scalar) (self other : loc).
Implicit Types (k v : K) (c : scalar) (l its : list (K * scalar)).

Lemma dict_update_lookup d l k :
  dict_update d l !! k =
  match last_write k l with Some c => Some c | None => d !! k end.
Proof.
  revert d. induction l as [|p l IH]; intros d; [reflexivity|].
  unfold dict_update in *. simpl. rewrite IH.
  destruct (last_write k l); [reflexivity|].
  destruct (decide (p.1 = k)) as [->|Hne].
  - apply lookup_insert_eq.
  - apply lookup_insert_ne, Hne.
Qed.

Lemma last_write_app k l1 l2 :
  last_write k (l1 ++ l2) =
  match last_write k l2 with Some c => Some c | None => last_write k l1 end.
Proof.
  induction l1 as [|p l1 IH]; simpl.
  - destruct (last_write k l2); reflexivity.
  - rewrite IH. destruct (last_write k l2); reflexivity.
Qed.

Lemma last_write_absent k l : k ∉ l.*1 -> last_write k l = None.
Proof.
  induction l as [|p l IH]; simpl; [reflexivity|].
  intros Hn. apply not_elem_of_cons in Hn as [Hne Hn].
  rewrite IH by exact Hn. destruct (decide (p.1 = k)); congruence.
Qed.

Lemma last_write_nodup k c l :
  NoDup l.*1 -> last_write k l = Some c <-> (k, c) ∈ l.
Proof.
  revert c. induction l as [|[k' c'] l IH]; simpl; intros c Hnd.
  - split; [discriminate | intros Hin; inversion Hin].
  - apply NoDup_cons in Hnd as [Hk' Hnd].
    assert (Hfst : forall c0, (k', c0) ∈ l -> False).
    { intros c0 Hin. apply Hk'. apply list_elem_of_fmap.
      exists (k', c0). split; [reflexivity | exact Hin]. }
    pose proof (fun c0 => IH c0 Hnd) as IH'. clear IH.
    destruct (last_write k l) as [c0|].
    + assert (E : (k, c0) ∈ l) by (apply IH'; reflexivity).
      split.
      * intros [= ->]. right. exact E.
      * intros Hin. apply elem_of_cons in Hin as [Heq|Hin].
        -- injection Heq as -> ->. exfalso. exact (Hfst _ E).
        -- apply IH' in Hin. exact Hin.
    + destruct (decide (k' = k)) as [->|Hne].
      * split.
        -- intros [= ->]. left.
        -- intros Hin. apply elem_of_cons in Hin as [Heq|Hin].
           ++ injection Heq as ->. reflexivity.
           ++ apply IH' in Hin. discriminate.
      * split; [discriminate|].
        intros Hin. apply elem_of_cons in Hin as [Heq|Hin].
        -- injection Heq as -> ->. congruence.
        -- apply IH' in Hin. discriminate.
Qed.

Lemma last_write_items d k : last_write k (dict_items d) = d !! k.
Proof.
  unfold dict_items.
  destruct (d !! k) as [c|] eqn:E.
  - apply last_write_nodup; [apply NoDup_fst_map_to_list|].
    apply elem_of_map_to_list, E.
  - destruct (last_write k (map_to_list d)) as [c|] eqn:E'; [|reflexivity].
    apply last_write_nodup in E'; [|apply NoDup_fst_map_to_list].
    apply elem_of_map_to_list in E'. congruence.
Qed.

Lemma dict_update_items d : dict_update ∅ (dict_items d) = d.
Proof.
  apply map_eq. intros k. rewrite dict_update_lookup, last_write_items.
  destruct (d !! k); [reflexivity | apply lookup_empty].
Qed.

Lemma drop_le_lookup atol d k :
  drop_le atol d !! k =
  match d !! k with
  | Some c => if abs_le atol c then None else Some c
  | None => None
  end.
Proof.
  unfold drop_le. destruct (d !! k) as [c|] eqn:E.
  - destruct (abs_le atol c) eqn:Ec.
    + apply map_lookup_filter_None. right. intros c' E'. simpl.
      rewrite E in E'. injection E' as <-. rewrite Ec. discriminate.
    + apply map_lookup_filter_Some. split; [exact E | exact Ec].
  - apply map_lookup_filter_None. left. exact E.
Qed.

Lemma drop_zeros_lookup d k :
  drop_zeros d !! k =
  match d !! k with
  | Some c => if s_eqb c s_zero then None else Some c
  | None => None
  end.
Proof.
  unfold drop_zeros. destruct (d !! k) as [c|] eqn:E.
  - destruct (s_eqb c s_zero) eqn:Ec.
    + apply map_lookup_filter_None. right. intros c' E'. simpl.
      rewrite E in E'. injection E' as <-. rewrite Ec. discriminate.
    + apply map_lookup_filter_Some. split; [exact E | exact Ec].
  - apply map_lookup_filter_None. left. exact E.
Qed.

Lemma drop_zeros_no_zero d : no_zero (drop_zeros d).
Proof.
  intros k c. rewrite drop_zeros_lookup.
  destruct (d !! k) as [c'|]; [|discriminate].
  destruct (s_eqb c' s_zero) eqn:E; [discriminate|].
  intros [= <-]. exact E.
Qed.

Lemma drop_zeros_empty : drop_zeros (∅ : gmap K scalar) = ∅.
Proof. apply map_filter_empty. Qed.

Lemma drop_le_subseteq atol d : drop_le atol d ⊆ d.
Proof. apply map_filter_subseteq. Qed.

Lemma drop_le_no_zero atol d : no_zero d -> no_zero (drop_le atol d).
Proof.
  intros Hz k c. rewrite drop_le_lookup.
  destruct (d !! k) as [c'|] eqn:E; [|discriminate].
  destruct (abs_le atol c'); [discriminate|].
  intros [= <-]. exact (Hz k c' E).
Qed.

(** [abs_defined], entry by entry. *)
Lemma abs_defined_true d :
  abs_defined d = true <-> forall k c, d !! k = Some c -> is_Some (s_abs c).
Proof.
  unfold abs_defined, dict_items. rewrite forallb_forall. split.
  - intros Hall k c E.
    specialize (Hall (k, c)). simpl in Hall.
    destruct (s_abs c); [eauto|].
    discriminate Hall. apply list_elem_of_In, elem_of_map_to_list, E.
  - intros Hall [k c] Hin. simpl.
    apply list_elem_of_In, elem_of_map_to_list in Hin.
    destruct (Hall k c Hin) as [a ->]. reflexivity.
Qed.

Lemma abs_defined_false d :
  abs_defined d = false <-> exists k c, d !! k = Some c /\ s_abs c = None.
Proof.
  split.
  - intros E. unfold abs_defined in E.
    assert (G : exists p, p ∈ dict_items d /\ s_abs p.2 = None).
    { induction (dict_items d) as [|p l IH]; [discriminate|].
      simpl in E. destruct (s_abs p.2) eqn:Ep.
      - destruct (IH E) as (q & Hq & Eq). exists q. split; [right; exact Hq | exact Eq].
      - exists p. split; [left | exact Ep]. }
    destruct G as ([k c] & Hin & Ec). exists k, c.
    split; [apply elem_of_map_to_list, Hin | exact Ec].
  - intros (k & c & E & Ec).
    destruct (abs_defined d) eqn:Ed; [|reflexivity].
    destruct (proj1 (abs_defined_true d) Ed k c E) as [a Ea]. congruence.
Qed.

Lemma abs_defined_empty : abs_defined (∅ : gmap K scalar) = true.
Proof. apply abs_defined_true. intros k c E. rewrite lookup_empty in E. discriminate. Qed.

Lemma abs_defined_subseteq d d' : d' ⊆ d -> abs_defined d = true -> abs_defined d' = true.
Proof.
  intros Hsub Hd. apply abs_defined_true. intros k c E.
  apply (proj1 (abs_defined_true d) Hd k c).
  eapply lookup_weaken; eassumption.
Qed.

Lemma drop_le_zero (L : ScalarLaws S) d :
  abs_defined d = true -> drop_le b64_zero d = drop_zeros d.
Proof.
  intros Hd. apply map_eq. intros k. rewrite drop_le_lookup, drop_zeros_lookup.
  destruct (d !! k) as [c|] eqn:E; [|reflexivity].
  destruct (proj1 (abs_defined_true d) Hd k c E) as [a Ea].
  unfold abs_le. rewrite Ea, (law_abs_zero L c a Ea). reflexivity.
Qed.

Lemma lookup_delete_all d (ks : list K) k :
  foldl (fun acc v => delete v acc) d ks !! k =
  if decide (k ∈ ks) then None else d !! k.
Proof.
  revert d. induction ks as [|v ks IH]; intros d; simpl.
  - destruct (decide (k ∈ [])) as [Hin|]; [inversion Hin | reflexivity].
  - rewrite IH. destruct (decide (k ∈ ks)) as [Hin|Hnin].
    + rewrite decide_True by (right; exact Hin). reflexivity.
    + destruct (decide (k = v)) as [->|Hne].
      * rewrite decide_True by left. apply lookup_delete_eq.
      * rewrite decide_False.
        -- apply lookup_delete_ne. congruence.
        -- intros Hin. apply elem_of_cons in Hin as [?|?]; contradiction.
Qed.

Lemma NoDup_fst_filter (P : K * scalar -> Prop) `{forall p, Decision (P p)} l :
  NoDup l.*1 -> NoDup (filter P l).*1.
Proof.
  induction l as [|p l IH]; simpl; intros Hnd; [constructor|].
  apply NoDup_cons in Hnd as [Hp Hnd].
  rewrite filter_cons. destruct (decide (P p)); [|apply IH, Hnd].
  simpl. apply NoDup_cons. split; [|apply IH, Hnd].
  intros Hin. apply Hp. apply list_elem_of_fmap in Hin as [q [-> Hq]].
  apply list_elem_of_fmap. exists q. split; [reflexivity|].
  apply list_elem_of_filter in Hq as [_ Hq]. exact Hq.
Qed.

Lemma negligible_elem atol d k :
  k ∈ (filter (fun p : K * scalar => abs_le atol p.2) (dict_items d)).*1 <->
  exists c, d !! k = Some c /\ abs_le atol c = true.
Proof.
  unfold dict_items. split.
  - intros Hin. apply list_elem_of_fmap in Hin as [[k' c] [-> Hq]].
    apply list_elem_of_filter in Hq as [HP Hq]. simpl in *.
    exists c. split; [apply elem_of_map_to_list, Hq|].
    apply Is_true_true, HP.
  - intros [c [E HP]]. apply list_elem_of_fmap. exists (k, c).
    split; [reflexivity|]. apply list_elem_of_filter. split.
    + simpl. apply Is_true_true, HP.
    + apply elem_of_map_to_list, E.
Qed.

Lemma delete_negligible atol d :
  foldl (fun acc v => delete v acc) d
    (filter (fun p : K * scalar => abs_le atol p.2) (dict_items d)).*1
  = drop_le atol d.
Proof.
  apply map_eq. intros k. rewrite lookup_delete_all, drop_le_lookup.
  destruct (decide _) as [Hin|Hnin].
  - apply negligible_elem in Hin as [c [E HP]]. rewrite E, HP. reflexivity.
  - destruct (d !! k) as [c|] eqn:E; [|reflexivity].
    destruct (abs_le atol c) eqn:HP; [|reflexivity].
    exfalso. apply Hnin, negligible_elem. exists c. split; assumption.
Qed.

Lemma size_zero d : Nat.eqb (size d) 0 = true <-> d = ∅.
Proof. rewrite Nat.eqb_eq. apply map_size_empty_iff. Qed.

Lemma size_nonzero d : d <> ∅ -> Nat.eqb (size d) 0 = false.
Proof.
  intros Hd. destruct (Nat.eqb (size d) 0) eqn:E; [|reflexivity].
  apply size_zero in E. contradiction.
Qed.

End DictFacts.

(** ** Comprehensions *)

Section Comprehensions.
Context {St A : Type}.
Implicit Types (l : list A) (test : A -> M St bool).

Lemma select_pure l test (f : A -> bool) (s : St) :
  (forall x, x ∈ l -> test x s = (Ok (f x), s)) ->
  select l test s = (Ok (filter (fun x => f x) l), s).
Proof.
  induction l as [|x l IH]; intros Ht; [reflexivity|].
  simpl. erewrite run_bind by (apply Ht; left).
  erewrite run_bind by (apply IH; intros y Hy; apply Ht; right; exact Hy).
  unfold ret. rewrite filter_cons.
  destruct (f x).
  - rewrite decide_True by exact I. reflexivity.
  - rewrite decide_False by (intros []). reflexivity.
Qed.

Lemma select_raise l test (e : exn) (s : St) :
  (forall x, x ∈ l -> (exists b, test x s = (Ok b, s)) \/ test x s = (Raise e, s)) ->
  (exists x, x ∈ l /\ test x s = (Raise e, s)) ->
  select l test s = (Raise e, s).
Proof.
  induction l as [|x l IH]; intros Hall (y & Hy & Ey); [inversion Hy|].
  simpl. destruct (Hall x) as [[b Eb]|Er]; [left| |].
  - erewrite run_bind by exact Eb.
    erewrite run_bind_raise; [reflexivity|].
    apply IH.
    + intros z Hz. apply Hall. right. exact Hz.
    + apply elem_of_cons in Hy as [->|Hy]; [congruence|].
      exists y. split; assumption.
  - erewrite run_bind_raise by exact Er. reflexivity.
Qed.

End Comprehensions.


(** ** What each method computes *)

Section MethodSpecs.
Context {K : Type} `{Countable K} {S : Scalar}.
Implicit Types (h : heap K) (d o : gmap K scalar) (self other : loc).
Implicit Types (k v : K) (c a : scalar) (l its terms : list (K * scalar)).

Lemma read_fail h self : h !! self = None -> read self h = (Raise InvalidReference, h).
Proof. intros E. unfold read. rewrite E. reflexivity. Qed.

Lemma lookup_app_old h (t : list (gmap K scalar)) self d :
  h !! self = Some d -> (h ++ t) !! self = Some d.
Proof. intros E. rewrite lookup_app_l; [exact E | eapply lookup_lt_Some, E]. Qed.

Lemma snoc_snoc h (x y : gmap K scalar) : (h ++ [x]) ++ [y] = h ++ [x; y].
Proof. rewrite <- app_assoc. reflexivity. Qed.

Lemma delete_loop self (ks : list K) : forall h d,
  h !! self = Some d -> NoDup ks -> (forall k, k ∈ ks -> is_Some (d !! k)) ->
  for_each ks (fun v => super_delitem self v) h
  = (Ok tt, <[self := foldl (fun acc v => delete v acc) d ks]> h).
Proof.
  induction ks as [|v ks IH]; intros h d Hs Hnd Hall; simpl.
  - unfold ret. rewrite insert_same by exact Hs. reflexivity.
  - apply NoDup_cons in Hnd as [Hv Hnd].
    destruct (Hall v) as [c Hc]; [left|].
    erewrite run_bind; cycle 1.
    { unfold super_delitem. erewrite run_bind by (apply read_ok, Hs).
      rewrite Hc. eapply write_ok, Hs. }
    rewrite (IH (<[self := delete v d]> h) (delete v d)).
    + rewrite insert_twice. reflexivity.
    + eapply lookup_written, Hs.
    + exact Hnd.
    + intros k Hk. rewrite lookup_delete_ne by (intros ->; contradiction).
      apply Hall. right. exact Hk.
Qed.

(** [clean]: every [abs] is evaluated first; one that raises ends the call
    with the container as it was. *)
Lemma clean_run h self d atol :
  h !! self = Some d ->
  clean self atol h
  = if abs_defined d
    then (Ok self,
          <[self := drop_le (match atol with Some x => x | None => atol_default end) d]> h)
    else (Raise OverflowError, h).
Proof.
  intros Hs. unfold clean. set (t := match atol with Some x => x | None => _ end).
  unfold super_items.
  erewrite run_bind; cycle 1.
  { erewrite run_bind by (apply read_ok, Hs). reflexivity. }
  destruct (abs_defined d) eqn:Ed.
  - erewrite run_bind; cycle 1.
    { apply (select_pure _ _ (fun p => abs_le t p.2)).
      intros [k c] Hp. apply elem_of_map_to_list in Hp.
      destruct (proj1 (abs_defined_true d) Ed k c Hp) as [x Ex].
      unfold py_abs, abs_le. simpl. rewrite Ex. reflexivity. }
    erewrite run_bind; cycle 1.
    { apply (delete_loop self _ h d Hs).
      - apply NoDup_fst_filter, NoDup_fst_map_to_list.
      - intros k Hk. apply negligible_elem in Hk as [c [E _]]. eauto. }
    unfold ret. rewrite delete_negligible. reflexivity.
  - erewrite run_bind_raise; [reflexivity|].
    apply select_raise.
    + intros p _. unfold py_abs. destruct (s_abs p.2); [left | right].
      * eexists. reflexivity.
      * reflexivity.
    + apply abs_defined_false in Ed as (k & c & E & Ec).
      exists (k, c). split; [apply elem_of_map_to_list, E|].
      unfold py_abs. simpl. rewrite Ec. reflexivity.
Qed.

Lemma clean_empty h self atol :
  h !! self = Some ∅ -> clean self atol h = (Ok self, h).
Proof.
  intros Hs. rewrite (clean_run _ _ _ _ Hs), abs_defined_empty.
  unfold drop_le. rewrite map_filter_empty, insert_same by exact Hs. reflexivity.
Qed.

Section WithLaws.
Context (L : ScalarLaws S).

(** [update]: the pairs are written first, then [clean(atol=0)] runs; when
    it raises, what was written stays. *)
Lemma update_run h self d terms :
  h !! self = Some d ->
  update self terms h
  = if abs_defined (dict_update d terms)
    then (Ok tt, <[self := drop_zeros (dict_update d terms)]> h)
    else (Raise OverflowError, <[self := dict_update d terms]> h).
Proof.
  intros Hs. unfold update, super_update.
  erewrite run_bind; cycle 1.
  { erewrite run_bind by (apply read_ok, Hs). eapply write_ok, Hs. }
  unfold bind.
  rewrite (clean_run _ self (dict_update d terms)) by (eapply lookup_written, Hs).
  destruct (abs_defined (dict_update d terms)) eqn:Ed; [|reflexivity].
  unfold ret. rewrite insert_twice, (drop_le_zero L) by exact Ed. reflexivity.
Qed.

Lemma LinearDict_run h terms :
  LinearDict terms h
  = if abs_defined (dict_update ∅ terms)
    then (Ok (length h), h ++ [drop_zeros (dict_update ∅ terms)])
    else (Raise OverflowError, h ++ [dict_update ∅ terms]).
Proof.
  unfold LinearDict, __init__.
  erewrite run_bind by reflexivity.
  unfold bind. rewrite (update_run _ _ ∅) by apply lookup_fresh.
  destruct (abs_defined (dict_update ∅ terms)); rewrite insert_fresh; reflexivity.
Qed.

Lemma LinearDict_nil h : LinearDict [] h = (Ok (length h), h ++ [∅]).
Proof.
  rewrite LinearDict_run. change (dict_update ∅ []) with (∅ : gmap K scalar).
  rewrite abs_defined_empty, drop_zeros_empty. reflexivity.
Qed.

Lemma super_copy_run h self d :
  h !! self = Some d ->
  super_copy self h
  = if Nat.eqb (size d) 0 then (Ok ∅, h) else (Raise RecursionError, h).
Proof.
  intros Hs. unfold super_copy.
  erewrite run_bind by (apply read_ok, Hs).
  destruct (Nat.eqb (size d) 0); reflexivity.
Qed.

(** [copy] returns only for a container whose storage is empty. *)
Lemma copy_run h self d :
  h !! self = Some d ->
  copy self h
  = if Nat.eqb (size d) 0 then (Ok (length h), h ++ [∅])
    else (Raise RecursionError, h).
Proof.
  intros Hs. unfold copy, bind. rewrite (super_copy_run _ _ _ Hs).
  destruct (Nat.eqb (size d) 0); [|reflexivity].
  unfold dict_items. rewrite map_to_list_empty. apply LinearDict_nil.
Qed.

Lemma items_run h self d :
  h !! self = Some d ->
  items self h
  = if Nat.eqb (size d) 0 then (Ok [], h ++ [∅]) else (Raise RecursionError, h).
Proof.
  intros Hs. unfold items, bind. rewrite (copy_run _ _ _ Hs).
  destruct (Nat.eqb (size d) 0); [|reflexivity].
  rewrite clean_empty by apply lookup_fresh.
  unfold super_items, bind. rewrite (read_ok _ _ _ (lookup_fresh h ∅)).
  unfold dict_items. rewrite map_to_list_empty. reflexivity.
Qed.

Lemma keys_run h self d :
  h !! self = Some d ->
  keys self h
  = if Nat.eqb (size d) 0 then (Ok [], h ++ [∅]) else (Raise RecursionError, h).
Proof.
  intros Hs. unfold keys, bind. rewrite (copy_run _ _ _ Hs).
  destruct (Nat.eqb (size d) 0); [|reflexivity].
  rewrite clean_empty by apply lookup_fresh.
  unfold super_keys, bind. rewrite (read_ok _ _ _ (lookup_fresh h ∅)).
  unfold dict_items. rewrite map_to_list_empty. reflexivity.
Qed.

Lemma iter_run h self d :
  h !! self = Some d ->
  __iter__ self h
  = if Nat.eqb (size d) 0 then (Ok [], h ++ [∅]) else (Raise RecursionError, h).
Proof. apply keys_run. Qed.

Lemma values_run h self d :
  h !! self = Some d ->
  values self h
  = if Nat.eqb (size d) 0 then (Ok [], h ++ [∅]) else (Raise RecursionError, h).
Proof.
  intros Hs. unfold values, bind. rewrite (copy_run _ _ _ Hs).
  destruct (Nat.eqb (size d) 0); [|reflexivity].
  rewrite clean_empty by apply lookup_fresh.
  unfold super_values, bind. rewrite (read_ok _ _ _ (lookup_fresh h ∅)).
  unfold dict_items. rewrite map_to_list_empty. reflexivity.
Qed.

Lemma len_run h self d :
  h !! self = Some d ->
  __len__ self h
  = if Nat.eqb (size d) 0 then (Ok 0%nat, h ++ [∅]) else (Raise RecursionError, h).
Proof.
  intros Hs. unfold __len__, bind. rewrite (items_run _ _ _ Hs).
  destruct (Nat.eqb (size d) 0); reflexivity.
Qed.

Lemma bool_run h self d :
  h !! self = Some d ->
  __bool__ self h
  = if Nat.eqb (size d) 0 then (Ok false, h ++ [∅]) else (Raise RecursionError, h).
Proof.
  intros Hs. unfold __bool__, bind. rewrite (values_run _ _ _ Hs).
  destruct (Nat.eqb (size d) 0); reflexivity.
Qed.

(** [+=]: nothing is added unless [other.items()] returns, and then there
    is nothing to add; what is left is the [clean(atol=0)] of the receiver. *)
Lemma iadd_run h self other d o :
  h !! self = Some d -> h !! other = Some o ->
  __iadd__ self other h
  = if Nat.eqb (size o) 0 then
      if abs_defined d then (Ok self, <[self := drop_zeros d]> (h ++ [∅]))
      else (Raise OverflowError, h ++ [∅])
    else (Raise RecursionError, h).
Proof.
  intros Hs Ho. unfold __iadd__, bind. rewrite (items_run _ _ _ Ho).
  destruct (Nat.eqb (size o) 0); [|reflexivity].
  simpl. unfold ret.
  rewrite (clean_run _ self d) by (apply lookup_app_old, Hs).
  destruct (abs_defined d) eqn:Ed; [|reflexivity].
  rewrite (drop_le_zero L) by exact Ed. reflexivity.
Qed.

Lemma isub_run h self other d o :
  h !! self = Some d -> h !! other = Some o ->
  __isub__ self other h
  = if Nat.eqb (size o) 0 then
      if abs_defined d then (Ok self, <[self := drop_zeros d]> (h ++ [∅]))
      else (Raise OverflowError, h ++ [∅])
    else (Raise RecursionError, h).
Proof.
  intros Hs Ho. unfold __isub__, bind. rewrite (items_run _ _ _ Ho).
  destruct (Nat.eqb (size o) 0); [|reflexivity].
  simpl. unfold ret.
  rewrite (clean_run _ self d) by (apply lookup_app_old, Hs).
  destruct (abs_defined d) eqn:Ed; [|reflexivity].
  rewrite (drop_le_zero L) by exact Ed. reflexivity.
Qed.

Lemma imul_run h self d a :
  h !! self = Some d ->
  __imul__ self a h
  = if Nat.eqb (size d) 0 then (Ok self, h ++ [∅]) else (Raise RecursionError, h).
Proof.
  intros Hs. unfold __imul__, bind. rewrite (iter_run _ _ _ Hs).
  destruct (Nat.eqb (size d) 0) eqn:E; [|reflexivity].
  apply size_zero in E. subst d. simpl. unfold ret.
  rewrite clean_empty by (apply lookup_app_old, Hs). reflexivity.
Qed.

Lemma insert_fresh_empty h (x : gmap K scalar) :
  <[length h := x]> (h ++ [x; ∅]) = h ++ [x; ∅].
Proof.
  apply list_insert_id. rewrite lookup_app_r by lia.
  rewrite Nat.sub_diag. reflexivity.
Qed.

Lemma add_run h self other d o :
  h !! self = Some d -> h !! other = Some o ->
  __add__ self other h
  = if Nat.eqb (size d) 0 then
      if Nat.eqb (size o) 0 then (Ok (length h), h ++ [∅; ∅])
      else (Raise RecursionError, h ++ [∅])
    else (Raise RecursionError, h).
Proof.
  intros Hs Ho. unfold __add__, bind. rewrite (copy_run _ _ _ Hs).
  destruct (Nat.eqb (size d) 0); [|reflexivity].
  rewrite (iadd_run _ _ other ∅ o) by (apply lookup_fresh || apply lookup_app_old, Ho).
  destruct (Nat.eqb (size o) 0); [|reflexivity].
  rewrite abs_defined_empty, drop_zeros_empty, snoc_snoc, insert_fresh_empty.
  reflexivity.
Qed.

Lemma sub_run h self other d o :
  h !! self = Some d -> h !! other = Some o ->
  __sub__ self other h
  = if Nat.eqb (size d) 0 then
      if Nat.eqb (size o) 0 then (Ok (length h), h ++ [∅; ∅])
      else (Raise RecursionError, h ++ [∅])
    else (Raise RecursionError, h).
Proof.
  intros Hs Ho. unfold __sub__, bind. rewrite (copy_run _ _ _ Hs).
  destruct (Nat.eqb (size d) 0); [|reflexivity].
  rewrite (isub_run _ _ other ∅ o) by (apply lookup_fresh || apply lookup_app_old, Ho).
  destruct (Nat.eqb (size o) 0); [|reflexivity].
  rewrite abs_defined_empty, drop_zeros_empty, snoc_snoc, insert_fresh_empty.
  reflexivity.
Qed.

Lemma mul_run h self d a :
  h !! self = Some d ->
  __mul__ self a h
  = if Nat.eqb (size d) 0 then (Ok (length h), h ++ [∅; ∅])
    else (Raise RecursionError, h).
Proof.
  intros Hs. unfold __mul__, bind. rewrite (copy_run _ _ _ Hs).
  destruct (Nat.eqb (size d) 0); [|reflexivity].
  rewrite (imul_run _ _ ∅) by apply lookup_fresh.
  rewrite map_size_empty. simpl. rewrite snoc_snoc. reflexivity.
Qed.

Lemma neg_run h self d :
  h !! self = Some d ->
  __neg__ self h
  = if Nat.eqb (size d) 0 then (Ok (Datatypes.S (length h)), h ++ [∅; ∅])
    else (Raise RecursionError, h).
Proof.
  intros Hs. unfold __neg__, bind. rewrite (items_run _ _ _ Hs).
  destruct (Nat.eqb (size d) 0); [|reflexivity].
  simpl. change (dict_update ∅ []) with (∅ : gmap K scalar).
  unfold dict_items. rewrite map_to_list_empty, LinearDict_nil, snoc_snoc.
  rewrite length_app. simpl. rewrite Nat.add_1_r. reflexivity.
Qed.

Lemma no_keys : elements (list_to_set [] ∪ list_to_set [] : gset K) = [].
Proof. apply elements_empty_iff. set_solver. Qed.

Lemma eq_run h self other da db :
  h !! self = Some da -> h !! other = Some db ->
  __eq__ self (LinearDictRef other) h
  = if Nat.eqb (size da) 0 then
      if Nat.eqb (size db) 0 then (Ok (PyBool true), h ++ [∅; ∅])
      else (Raise RecursionError, h ++ [∅])
    else (Raise RecursionError, h).
Proof.
  intros Ha Hb. unfold __eq__, bind. rewrite (keys_run _ _ _ Ha).
  destruct (Nat.eqb (size da) 0); [|reflexivity].
  rewrite (keys_run _ _ db) by (apply lookup_app_old, Hb).
  destruct (Nat.eqb (size db) 0); [|reflexivity].
  rewrite no_keys, snoc_snoc. reflexivity.
Qed.

Lemma ne_run h self other da db :
  h !! self = Some da -> h !! other = Some db ->
  __ne__ self (LinearDictRef other) h
  = if Nat.eqb (size da) 0 then
      if Nat.eqb (size db) 0 then (Ok (PyBool false), h ++ [∅; ∅])
      else (Raise RecursionError, h ++ [∅])
    else (Raise RecursionError, h).
Proof.
  intros Ha Hb. unfold __ne__, bind. rewrite (eq_run _ _ _ _ _ Ha Hb).
  destruct (Nat.eqb (size da) 0); [|reflexivity].
  destruct (Nat.eqb (size db) 0); reflexivity.
Qed.

Lemma approx_eq_run h self other da db atol :
  h !! self = Some da -> h !! other = Some db ->
  _approx_eq_ self (LinearDictRef other) atol h
  = if Nat.eqb (size da) 0 then
      if Nat.eqb (size db) 0 then (Ok (PyBool true), h ++ [∅; ∅])
      else (Raise RecursionError, h ++ [∅])
    else (Raise RecursionError, h).
Proof.
  intros Ha Hb. unfold _approx_eq_, bind. rewrite (keys_run _ _ _ Ha).
  destruct (Nat.eqb (size da) 0); [|reflexivity].
  rewrite (keys_run _ _ db) by (apply lookup_app_old, Hb).
  destruct (Nat.eqb (size db) 0); [|reflexivity].
  rewrite no_keys, snoc_snoc. reflexivity.
Qed.

Lemma format_run {KK : Key K} h self d fs :
  h !! self = Some d ->
  __format__ self fs h
  = if Nat.eqb (size d) 0 then (Ok (format_float fs (b64_of_Z 0)), h ++ [∅])
    else (Raise RecursionError, h).
Proof.
  intros Hs. unfold __format__, bind. rewrite (keys_run _ _ _ Hs).
  destruct (Nat.eqb (size d) 0); reflexivity.
Qed.

End WithLaws.

Lemma getitem_spec h self d v :
  h !! self = Some d -> __getitem__ self v h = (Ok (coef d v), h).
Proof.
  intros Hs. unfold __getitem__, super_get.
  erewrite run_bind by (apply read_ok, Hs). reflexivity.
Qed.

Lemma setitem_spec h self d v c :
  h !! self = Some d ->
  __setitem__ self v c h = (Ok tt, <[self := setitem d v c]> h).
Proof.
  intros Hs. unfold __setitem__, setitem.
  destruct (s_nonzero c).
  - unfold super_setitem. erewrite run_bind by (apply read_ok, Hs).
    eapply write_ok, Hs.
  - unfold super_contains.
    erewrite run_bind; cycle 1.
    { erewrite run_bind by (apply read_ok, Hs). reflexivity. }
    destruct (d !! v) as [c'|] eqn:E.
    + rewrite bool_decide_eq_true_2 by eauto.
      unfold super_delitem. erewrite run_bind by (apply read_ok, Hs).
      rewrite E. eapply write_ok, Hs.
    + rewrite bool_decide_eq_false_2 by (intros [? ?]; discriminate).
      unfold ret. rewrite delete_id by exact E.
      rewrite insert_same by exact Hs. reflexivity.
Qed.

Lemma contains_spec h self d v :
  h !! self = Some d ->
  __contains__ self v h
  = (Ok (match d !! v with Some c => s_nonzero c | None => false end), h).
Proof.
  intros Hs. unfold __contains__, super_contains.
  erewrite run_bind; cycle 1.
  { erewrite run_bind by (apply read_ok, Hs). reflexivity. }
  destruct (d !! v) as [c|] eqn:E.
  - rewrite bool_decide_eq_true_2 by eauto.
    unfold super_getitem.
    erewrite run_bind; cycle 1.
    { erewrite run_bind by (apply read_ok, Hs). rewrite E. reflexivity. }
    reflexivity.
  - rewrite bool_decide_eq_false_2 by (intros [? ?]; discriminate).
    reflexivity.
Qed.

Lemma get_spec {D} (L : ScalarLaws S) h self d v (default : pyval D) :
  h !! self = Some d ->
  get self v default h
  = (Ok (match d !! v with
         | Some c => if s_eqb c s_zero then default else Num c
         | None => default
         end), h).
Proof.
  intros Hs. unfold get, super_get, super_get_none, s_is_zero.
  erewrite run_bind; cycle 1.
  { erewrite run_bind by (apply read_ok, Hs). reflexivity. }
  destruct (d !! v) as [c|] eqn:E.
  - destruct (s_eqb c s_zero); [reflexivity|].
    erewrite run_bind; cycle 1.
    { erewrite run_bind by (apply read_ok, Hs). reflexivity. }
    rewrite E. reflexivity.
  - rewrite (law_zero_eq L). reflexivity.
Qed.

End MethodSpecs.


(** ** Zero-free stores *)

Section Invariant.
Context {K : Type} `{Countable K} {S : Scalar} (L : ScalarLaws S).
Implicit Types (h : heap K) (d o : gmap K scalar) (self other : loc).
Implicit Types (k v : K) (c a : scalar) (l its terms : list (K * scalar)).

Lemma heap_no_zero_snoc h d :
  heap_no_zero h -> no_zero d -> heap_no_zero (h ++ [d]).
Proof.
  intros Hh Hd l d' Hl. apply lookup_app_Some in Hl as [Hl|[_ Hl]].
  - exact (Hh l d' Hl).
  - apply list_lookup_singleton_Some in Hl as [_ <-]. exact Hd.
Qed.

Lemma heap_no_zero_insert h self d :
  heap_no_zero h -> no_zero d -> heap_no_zero (<[self := d]> h).
Proof.
  intros Hh Hd l d' Hl. apply list_lookup_insert_Some in Hl as [[_ [<- _]]|[_ Hl]].
  - exact Hd.
  - exact (Hh l d' Hl).
Qed.

Lemma setitem_no_zero d v c : no_zero d -> no_zero (setitem d v c).
Proof.
  intros Hd k c'. unfold setitem, s_nonzero.
  destruct (s_eqb c s_zero) eqn:E; simpl.
  - intros Hk. apply lookup_delete_Some in Hk as [_ Hk]. exact (Hd k c' Hk).
  - intros Hk. apply lookup_insert_Some in Hk as [[_ <-]|[_ Hk]].
    + exact E.
    + exact (Hd k c' Hk).
Qed.

Lemma keeps_bind {A B} (m : M (heap K) A) (f : A -> M (heap K) B) :
  keeps_no_zero (K := K) m ->
  (forall h x h', m h = (Ok x, h') -> keeps_no_zero (K := K) (f x)) ->
  keeps_no_zero (K := K) (bind m f).
Proof.
  intros Hm Hf h Hh Hne. unfold bind in *.
  pose proof (Hm h Hh) as Hm'.
  destruct (m h) as [[x|e] h'] eqn:E.
  - apply (Hf h x h' E); [apply Hm'; discriminate | exact Hne].
  - apply Hm'. simpl in *. intros [= ->]. apply Hne. reflexivity.
Qed.

Lemma keeps_then {A B} (m : M (heap K) A) (f : A -> M (heap K) B) :
  keeps_no_zero (K := K) m -> (forall x, keeps_no_zero (K := K) (f x)) -> keeps_no_zero (K := K) (bind m f).
Proof. intros Hm Hf. apply keeps_bind; [exact Hm | intros; apply Hf]. Qed.

Lemma keeps_unchanged {A} (m : M (heap K) A) :
  (forall h, (m h).2 = h) -> keeps_no_zero (K := K) m.
Proof. intros Hm h Hh _. rewrite Hm. exact Hh. Qed.

Lemma keeps_ret {A} (x : A) : keeps_no_zero (K := K) (ret x : M (heap K) A).
Proof. apply keeps_unchanged. reflexivity. Qed.

Lemma keeps_super_copy self : keeps_no_zero (K := K) (super_copy self).
Proof.
  apply keeps_unchanged. intros h. unfold super_copy, bind, read.
  destruct (h !! self) as [d|]; [|reflexivity].
  destruct (Nat.eqb (size d) 0); reflexivity.
Qed.

Lemma keeps_super_items self : keeps_no_zero (K := K) (super_items self).
Proof.
  apply keeps_unchanged. intros h. unfold super_items, bind, read.
  destruct (h !! self); reflexivity.
Qed.

Lemma keeps_super_keys self : keeps_no_zero (K := K) (super_keys self).
Proof.
  apply keeps_unchanged. intros h. unfold super_keys, bind, read.
  destruct (h !! self); reflexivity.
Qed.

Lemma clean_fail h self atol :
  h !! self = None -> clean self atol h = (Raise InvalidReference, h).
Proof.
  intros E. unfold clean, super_items.
  erewrite run_bind_raise; [reflexivity|].
  erewrite run_bind_raise by (apply read_fail, E). reflexivity.
Qed.

Lemma update_fail h self terms :
  h !! self = None -> update self terms h = (Raise InvalidReference, h).
Proof.
  intros E. unfold update, super_update.
  erewrite run_bind_raise; [reflexivity|].
  erewrite run_bind_raise by (apply read_fail, E). reflexivity.
Qed.

Lemma setitem_fail h self v c :
  h !! self = None -> __setitem__ self v c h = (Raise InvalidReference, h).
Proof.
  intros E. unfold __setitem__. destruct (s_nonzero c).
  - unfold super_setitem.
    erewrite run_bind_raise by (apply read_fail, E). reflexivity.
  - unfold super_contains. erewrite run_bind_raise; [reflexivity|].
    erewrite run_bind_raise by (apply read_fail, E). reflexivity.
Qed.

Lemma keeps_clean self atol : keeps_no_zero (K := K) (clean self atol).
Proof.
  intros h Hh Hne. destruct (h !! self) as [d|] eqn:Hs.
  - rewrite (clean_run _ _ _ _ Hs) in *.
    destruct (abs_defined d); [|contradiction Hne; reflexivity].
    apply heap_no_zero_insert; [exact Hh|].
    apply drop_le_no_zero. exact (Hh _ _ Hs).
  - rewrite (clean_fail _ _ _ Hs). exact Hh.
Qed.

Lemma keeps_update self terms : keeps_no_zero (K := K) (update self terms).
Proof.
  intros h Hh Hne. destruct (h !! self) as [d|] eqn:Hs.
  - rewrite (update_run L _ _ _ _ Hs) in *.
    destruct (abs_defined (dict_update d terms)); [|contradiction Hne; reflexivity].
    apply heap_no_zero_insert; [exact Hh | apply drop_zeros_no_zero].
  - rewrite (update_fail _ _ _ Hs). exact Hh.
Qed.

Lemma keeps_setitem self v c : keeps_no_zero (K := K) (__setitem__ self v c).
Proof.
  intros h Hh _. destruct (h !! self) as [d|] eqn:Hs.
  - rewrite (setitem_spec _ _ _ _ _ Hs).
    apply heap_no_zero_insert; [exact Hh|].
    apply setitem_no_zero. exact (Hh _ _ Hs).
  - rewrite (setitem_fail _ _ _ _ Hs). exact Hh.
Qed.

Lemma keeps_LinearDict terms : keeps_no_zero (K := K) (LinearDict terms).
Proof.
  intros h Hh Hne. rewrite (LinearDict_run L) in *.
  destruct (abs_defined (dict_update ∅ terms)); [|contradiction Hne; reflexivity].
  apply heap_no_zero_snoc; [exact Hh | apply drop_zeros_no_zero].
Qed.

Lemma keeps_copy self : keeps_no_zero (K := K) (copy self).
Proof.
  apply keeps_then; [apply keeps_super_copy | intros d; apply keeps_LinearDict].
Qed.

Lemma keeps_snapshot {A} self (view : loc -> M (heap K) A) :
  (forall snapshot, keeps_no_zero (K := K) (view snapshot)) ->
  keeps_no_zero (K := K) (c <- copy self ;; snapshot <- clean c (Some b64_zero) ;; view snapshot).
Proof.
  intros Hv. apply keeps_then; [apply keeps_copy|]. intros c.
  apply keeps_then; [apply keeps_clean | exact Hv].
Qed.

Lemma keeps_items self : keeps_no_zero (K := K) (items self).
Proof. apply keeps_snapshot, keeps_super_items. Qed.

Lemma keeps_iter self : keeps_no_zero (K := K) (__iter__ self).
Proof. apply keeps_snapshot, keeps_super_keys. Qed.

(** The enumerations return with nothing, or not at all. *)
Lemma items_nil h self its h' : items self h = (Ok its, h') -> its = [].
Proof.
  destruct (h !! self) as [d|] eqn:Hs.
  - rewrite (items_run L _ _ _ Hs).
    destruct (Nat.eqb (size d) 0); [intros [= <- _]; reflexivity | discriminate].
  - unfold items, copy, super_copy, bind. rewrite (read_fail _ _ Hs). discriminate.
Qed.

Lemma keys_nil h self ks h' : keys self h = (Ok ks, h') -> ks = [].
Proof.
  destruct (h !! self) as [d|] eqn:Hs.
  - rewrite (keys_run L _ _ _ Hs).
    destruct (Nat.eqb (size d) 0); [intros [= <- _]; reflexivity | discriminate].
  - unfold keys, copy, super_copy, bind. rewrite (read_fail _ _ Hs). discriminate.
Qed.

Lemma values_nil h self vs h' : values self h = (Ok vs, h') -> vs = [].
Proof.
  destruct (h !! self) as [d|] eqn:Hs.
  - rewrite (values_run L _ _ _ Hs).
    destruct (Nat.eqb (size d) 0); [intros [= <- _]; reflexivity | discriminate].
  - unfold values, copy, super_copy, bind. rewrite (read_fail _ _ Hs). discriminate.
Qed.

Lemma iter_nil h self ks h' : __iter__ self h = (Ok ks, h') -> ks = [].
Proof. apply keys_nil. Qed.

Lemma keeps_iadd self other : keeps_no_zero (K := K) (__iadd__ self other).
Proof.
  apply keeps_bind; [apply keeps_items|].
  intros h its h' E. apply items_nil in E. subst its.
  apply keeps_then; [apply keeps_ret|]. intros _.
  apply keeps_then; [apply keeps_clean | intros; apply keeps_ret].
Qed.

Lemma keeps_isub self other : keeps_no_zero (K := K) (__isub__ self other).
Proof.
  apply keeps_bind; [apply keeps_items|].
  intros h its h' E. apply items_nil in E. subst its.
  apply keeps_then; [apply keeps_ret|]. intros _.
  apply keeps_then; [apply keeps_clean | intros; apply keeps_ret].
Qed.

Lemma keeps_imul self a : keeps_no_zero (K := K) (__imul__ self a).
Proof.
  apply keeps_bind; [apply keeps_iter|].
  intros h vs h' E. apply iter_nil in E. subst vs.
  apply keeps_then; [apply keeps_ret|]. intros _.
  apply keeps_then; [apply keeps_clean | intros; apply keeps_ret].
Qed.

Lemma keeps_add self other : keeps_no_zero (K := K) (__add__ self other).
Proof.
  apply keeps_then; [apply keeps_copy|]. intros r.
  apply keeps_then; [apply keeps_iadd | intros; apply keeps_ret].
Qed.

Lemma keeps_sub self other : keeps_no_zero (K := K) (__sub__ self other).
Proof.
  apply keeps_then; [apply keeps_copy|]. intros r.
  apply keeps_then; [apply keeps_isub | intros; apply keeps_ret].
Qed.

Lemma keeps_mul self a : keeps_no_zero (K := K) (__mul__ self a).
Proof.
  apply keeps_then; [apply keeps_copy|]. intros r.
  apply keeps_then; [apply keeps_imul | intros; apply keeps_ret].
Qed.

Lemma keeps_truediv self a : keeps_no_zero (K := K) (__truediv__ self a).
Proof.
  unfold __truediv__. destruct (s_inv a); [apply keeps_mul|].
  apply keeps_unchanged. reflexivity.
Qed.

Lemma keeps_neg self : keeps_no_zero (K := K) (__neg__ self).
Proof.
  apply keeps_then; [apply keeps_items | intros its; apply keeps_LinearDict].
Qed.

Lemma keeps_exec (c : command) : keeps_no_zero (K := K) (exec c).
Proof.
  destruct c; simpl;
    try (apply keeps_then; [|intros; apply keeps_ret]).
  - apply keeps_LinearDict.
  - apply keeps_LinearDict.
  - apply keeps_update.
  - apply keeps_setitem.
  - apply keeps_clean.
  - apply keeps_iadd.
  - apply keeps_isub.
  - apply keeps_imul.
  - apply keeps_add.
  - apply keeps_sub.
  - apply keeps_mul.
  - apply keeps_mul.
  - apply keeps_truediv.
  - apply keeps_neg.
  - apply keeps_copy.
Qed.

Lemma exec_all_no_zero (cs : list command) h :
  heap_no_zero h ->
  Forall (fun r => r <> Raise OverflowError) (outcomes cs h) ->
  heap_no_zero (exec_all cs h).
Proof.
  revert h. induction cs as [|c cs IH]; intros h Hh Ho; [exact Hh|].
  simpl in Ho. apply Forall_cons in Ho as [Hc Ho].
  apply IH; [apply keeps_exec; assumption | exact Ho].
Qed.

Lemma zero_hidden_always h self d : h !! self = Some d -> zero_hidden h self d.
Proof.
  intros Hs. repeat split.
  - intros v. exists (coef d v). split; [apply getitem_spec, Hs|].
    rewrite drop_zeros_lookup. unfold coef.
    destruct (d !! v) as [c|]; [|apply (law_zero_eq L)].
    destruct (s_eqb c s_zero); reflexivity.
  - intros D v default. rewrite (get_spec L _ _ _ _ _ Hs), drop_zeros_lookup. simpl.
    destruct (d !! v) as [c|]; [|reflexivity].
    destruct (s_eqb c s_zero); reflexivity.
  - intros v. rewrite (contains_spec _ _ _ _ Hs), drop_zeros_lookup. simpl. f_equal.
    unfold s_nonzero. destruct (d !! v) as [c|].
    + destruct (s_eqb c s_zero); symmetry.
      * apply bool_decide_eq_false_2. intros [? ?]; discriminate.
      * apply bool_decide_eq_true_2. eauto.
    + symmetry. apply bool_decide_eq_false_2. intros [? ?]; discriminate.
  - intros its E. destruct (items self h) as [o h'] eqn:Ei. simpl in E. subst o.
    eapply items_nil, Ei.
  - intros ks E. destruct (keys self h) as [o h'] eqn:Ei. simpl in E. subst o.
    eapply keys_nil, Ei.
  - intros vs E. destruct (values self h) as [o h'] eqn:Ei. simpl in E. subst o.
    eapply values_nil, Ei.
  - intros ks E. destruct (__iter__ self h) as [o h'] eqn:Ei. simpl in E. subst o.
    eapply iter_nil, Ei.
  - intros n. rewrite (len_run L _ _ _ Hs).
    destruct (Nat.eqb (size d) 0); [intros [= <-]; reflexivity | discriminate].
Qed.

End Invariant.


(** ** The claims *)

Section Claims.
Context {K : Type} `{Countable K} {S : Scalar}.
Implicit Types (h : heap K) (d o da db : gmap K scalar) (self other : loc).
Implicit Types (k v : K) (c : scalar) (l its terms : list (K * scalar)).
Implicit Types (a b : loc).

Lemma preserved_app h (t : list (gmap K scalar)) : preserved h (h ++ t).
Proof. intros l d. apply lookup_app_old. Qed.

Lemma preserved_refl h : preserved h h.
Proof. intros l d E. exact E. Qed.

Lemma returns_new_appended h (m : M (heap K) loc) (t : list (gmap K scalar)) i result :
  m h = (Ok (length h + i)%nat, h ++ t) -> t !! i = Some result ->
  returns_new h m result.
Proof.
  intros Hm Ht. exists (length h + i)%nat, (h ++ t). split; [exact Hm|].
  split; [apply lookup_ge_None; lia|]. split.
  - rewrite lookup_app_r by lia.
    replace (length h + i - length h)%nat with i by lia. exact Ht.
  - apply preserved_app.
Qed.

Lemma empty_size d : d = ∅ -> Nat.eqb (size d) 0 = true.
Proof. intros ->. rewrite map_size_empty. reflexivity. Qed.

(** C1 (zero-elision, invariant I1), as the code has it.  Start from a
    store whose containers hold no coefficient equal to zero (the empty
    store, for one) and run any sequence of public operations: construction,
    [fromkeys], [update], subscript write, [clean], [+=], [-=], [*=] and the
    copy-returning operators.  If none of them raised OverflowError, no
    container of the store holds a coefficient [== 0] afterwards.  And in
    any store at all, no zero entry can be observed: the subscript, [get]
    and [in] treat a stored zero as a missing key, and [items], [keys],
    [values], iteration and [len] show no entry when they return. *)
Theorem zero_elision_invariant (L : ScalarLaws S) (cs : list command) h0 :
  heap_no_zero h0 ->
  Forall (fun r => r <> Raise OverflowError) (outcomes cs h0) ->
  heap_no_zero (exec_all cs h0) /\
  forall h self d, h !! self = Some d -> zero_hidden h self d.
Proof.
  intros H0 Hr. split.
  - apply (exec_all_no_zero L); assumption.
  - intros h self d. apply (zero_hidden_always L).
Qed.

Lemma last_write_last k c (l1 l2 : list (K * scalar)) :
  k ∉ l2.*1 -> last_write k (l1 ++ (k, c) :: l2) = Some c.
Proof.
  intros Hn. rewrite last_write_app. simpl.
  rewrite (last_write_absent _ _ Hn), decide_True by reflexivity. reflexivity.
Qed.

(** C2 (overwrite against sum), as the code has it.  The constructor and
    [update] keep, for a key given several times, the coefficient of its
    last pair, whatever the earlier pairs and the old entry were: it is
    stored when [clean(atol=0)] returns (dropped if it is zero), and it is
    what the storage holds when [clean] raises OverflowError.  [+=] with
    a right operand that has an entry adds nothing: it raises
    RecursionError and leaves the store as it was. *)
Theorem update_overwrites_iadd_recurses (L : ScalarLaws S)
    h (l1 l2 : list (K * scalar)) k c self other d o (oc : scalar) :
  k ∉ l2.*1 ->
  h !! self = Some d -> h !! other = Some o -> o !! k = Some oc ->
  (abs_defined (dict_update ∅ (l1 ++ (k, c) :: l2)) = true ->
     exists d', LinearDict (l1 ++ (k, c) :: l2) h = (Ok (length h), h ++ [d']) /\
                d' !! k = stored c) /\
  (abs_defined (dict_update d (l1 ++ (k, c) :: l2)) = true ->
     exists d', update self (l1 ++ (k, c) :: l2) h = (Ok tt, <[self := d']> h) /\
                d' !! k = stored c) /\
  (abs_defined (dict_update d (l1 ++ (k, c) :: l2)) = false ->
     exists d', update self (l1 ++ (k, c) :: l2) h
                = (Raise OverflowError, <[self := d']> h) /\
                d' !! k = Some c) /\
  __iadd__ self other h = (Raise RecursionError, h).
Proof.
  intros Hk Hs Ho Hoc.
  assert (Hw : forall d0, dict_update d0 (l1 ++ (k, c) :: l2) !! k = Some c).
  { intros d0. rewrite dict_update_lookup, (last_write_last _ _ _ _ Hk). reflexivity. }
  assert (Hz : forall d0, drop_zeros (dict_update d0 (l1 ++ (k, c) :: l2)) !! k = stored c).
  { intros d0. rewrite drop_zeros_lookup, Hw. reflexivity. }
  repeat split.
  - intros Hd. eexists. rewrite (LinearDict_run L), Hd. split; [reflexivity | apply Hz].
  - intros Hd. eexists. rewrite (update_run L _ _ _ _ Hs), Hd.
    split; [reflexivity | apply Hz].
  - intros Hd. eexists. rewrite (update_run L _ _ _ _ Hs), Hd.
    split; [reflexivity | apply Hw].
  - rewrite (iadd_run L _ _ _ _ _ Hs Ho), size_nonzero; [reflexivity|].
    intros ->. rewrite lookup_empty in Hoc. discriminate.
Qed.

(** C3 (exact equality), as the code has it.  [==] and [!=] begin with
    [self.keys()] and [other.keys()]: between two containers with empty
    storage [==] is True and [!=] is False; as soon as one of them has an
    entry, both raise RecursionError.  Against a value that is not a
    [LinearDict] both return [NotImplemented]. *)
Theorem exact_equality_outcomes (L : ScalarLaws S) h a b da db :
  h !! a = Some da -> h !! b = Some db ->
  (da = ∅ -> db = ∅ ->
     (__eq__ a (LinearDictRef b) h).1 = Ok (PyBool true) /\
     (__ne__ a (LinearDictRef b) h).1 = Ok (PyBool false)) /\
  (da <> ∅ \/ db <> ∅ ->
     (__eq__ a (LinearDictRef b) h).1 = Raise RecursionError /\
     (__ne__ a (LinearDictRef b) h).1 = Raise RecursionError) /\
  __eq__ a NotALinearDict h = (Ok NotImplemented, h) /\
  __ne__ a NotALinearDict h = (Ok NotImplemented, h).
Proof.
  intros Ha Hb.
  rewrite (eq_run L _ _ _ _ _ Ha Hb), (ne_run L _ _ _ _ _ Ha Hb).
  split; [|split; [|split; reflexivity]].
  - intros -> ->. rewrite map_size_empty. split; reflexivity.
  - intros Hn. destruct (Nat.eqb (size da) 0) eqn:Ea; [|split; reflexivity].
    destruct Hn as [Hn|Hn]; [apply size_nonzero in Hn; congruence|].
    rewrite (size_nonzero _ Hn). split; reflexivity.
Qed.

(** C4 (division).  Dividing by a scalar equal to zero raises
    ZeroDivisionError and leaves the whole store, the dividend included, as
    it was; dividing by any other scalar [s] finds the quotient [r = 1 / s]
    and is the multiplication by [r]: the same outcome and the same store. *)
Theorem division_by_scalar (L : ScalarLaws S) h a d (s : scalar) :
  h !! a = Some d ->
  (s_eqb s s_zero = true ->
     __truediv__ a s h = (Raise ZeroDivisionError, h)) /\
  (s_eqb s s_zero = false ->
     exists r, s_inv s = Some r /\ __truediv__ a s h = __mul__ a r h).
Proof.
  intros _. unfold __truediv__. split.
  - intros Hz. apply (law_inv_zero L) in Hz. rewrite Hz. reflexivity.
  - intros Hnz. destruct (s_inv s) as [r|] eqn:Hr.
    + exists r. split; reflexivity.
    + apply (law_inv_zero L) in Hr. congruence.
Qed.

(** C5 (total lookup).  The subscript read returns the stored coefficient,
    or 0 for a missing key, and never raises; [get] returns the stored
    coefficient, or the default when the key is missing or stored with a
    coefficient equal to zero.  Neither changes the store. *)
Theorem lookup_total (L : ScalarLaws S) {D} h self d v (default : pyval D) :
  h !! self = Some d ->
  __getitem__ self v h
  = (Ok (match d !! v with Some c => c | None => s_zero end), h) /\
  get self v default h
  = (Ok (match d !! v with
         | Some c => if s_eqb c s_zero then default else Num c
         | None => default
         end), h).
Proof.
  intros Hs. split.
  - apply getitem_spec, Hs.
  - apply (get_spec L), Hs.
Qed.


Lemma add_as_copy_iadd h a b :
  __add__ a b h = (c <- copy a ;; __iadd__ c b) h.
Proof.
  unfold __add__, bind. destruct (copy a h) as [[r|e] h1]; [|reflexivity].
  destruct (__iadd__ r b h1) as [[x|e] h2]; reflexivity.
Qed.

(** C6 (frame of the value-returning operators), as the code has it.
    [a + b], [a - b], [a * s], [s * a], [a / s] and [-a] never change an
    object of the store, operands included, whatever their outcome.  They
    return a new container when the storage of the operands is empty, and
    raise RecursionError when the storage of an operand they copy or
    enumerate has an entry.  [a + b] runs as [a.copy()] followed by [+= b]
    on the copy. *)
Theorem operators_leave_operands (L : ScalarLaws S) h a b da db (s : scalar) :
  h !! a = Some da -> h !! b = Some db ->
  (preserved h (__add__ a b h).2 /\ preserved h (__sub__ a b h).2 /\
   preserved h (__mul__ a s h).2 /\ preserved h (__rmul__ a s h).2 /\
   preserved h (__truediv__ a s h).2 /\ preserved h (__neg__ a h).2) /\
  (da = ∅ ->
     returns_new h (__mul__ a s) ∅ /\ returns_new h (__rmul__ a s) ∅ /\
     returns_new h (__neg__ a) ∅ /\
     (s_eqb s s_zero = false -> returns_new h (__truediv__ a s) ∅) /\
     (db = ∅ -> returns_new h (__add__ a b) ∅ /\ returns_new h (__sub__ a b) ∅) /\
     (db <> ∅ -> (__add__ a b h).1 = Raise RecursionError /\
                 (__sub__ a b h).1 = Raise RecursionError)) /\
  (da <> ∅ ->
     raises h (__add__ a b) RecursionError /\ raises h (__sub__ a b) RecursionError /\
     raises h (__mul__ a s) RecursionError /\ raises h (__rmul__ a s) RecursionError /\
     raises h (__neg__ a) RecursionError /\
     (s_eqb s s_zero = false -> raises h (__truediv__ a s) RecursionError)) /\
  __add__ a b h = (c <- copy a ;; __iadd__ c b) h.
Proof.
  intros Ha Hb.
  assert (Hmul : forall r, __mul__ a r h
                 = if Nat.eqb (size da) 0 then (Ok (length h), h ++ [∅; ∅])
                   else (Raise RecursionError, h))
    by (intros r; apply (mul_run L), Ha).
  assert (Hdiv : s_eqb s s_zero = false ->
                 exists r, __truediv__ a s h = __mul__ a r h).
  { intros Hnz. destruct (division_by_scalar L h a da s Ha) as [_ Hd].
    destruct (Hd Hnz) as (r & _ & E). exists r. exact E. }
  split; [|split; [|split]].
  - repeat split.
    + rewrite (add_run L _ _ _ _ _ Ha Hb).
      destruct (Nat.eqb (size da) 0); [destruct (Nat.eqb (size db) 0)|];
        (apply preserved_app || apply preserved_refl).
    + rewrite (sub_run L _ _ _ _ _ Ha Hb).
      destruct (Nat.eqb (size da) 0); [destruct (Nat.eqb (size db) 0)|];
        (apply preserved_app || apply preserved_refl).
    + rewrite Hmul. destruct (Nat.eqb (size da) 0);
        (apply preserved_app || apply preserved_refl).
    + unfold __rmul__. rewrite Hmul. destruct (Nat.eqb (size da) 0);
        (apply preserved_app || apply preserved_refl).
    + unfold __truediv__. destruct (s_inv s); [|apply preserved_refl].
      rewrite Hmul. destruct (Nat.eqb (size da) 0);
        (apply preserved_app || apply preserved_refl).
    + rewrite (neg_run L _ _ _ Ha). destruct (Nat.eqb (size da) 0);
        (apply preserved_app || apply preserved_refl).
  - intros Hd. pose proof (empty_size _ Hd) as Ed.
    assert (Hm : forall r, returns_new h (__mul__ a r) ∅).
    { intros r. apply (returns_new_appended h _ [∅; ∅] 0); [|reflexivity].
      rewrite Hmul, Ed, Nat.add_0_r. reflexivity. }
    split; [apply Hm|]. split; [apply Hm|]. split; [|split; [|split]].
    + apply (returns_new_appended h _ [∅; ∅] 1); [|reflexivity].
      rewrite (neg_run L _ _ _ Ha), Ed, Nat.add_1_r. reflexivity.
    + intros Hnz. destruct (Hdiv Hnz) as [r E].
      destruct (Hm r) as (x & h' & Hx & Hrest).
      exists x, h'. split; [rewrite E; exact Hx | exact Hrest].
    + intros Hdb. pose proof (empty_size _ Hdb) as Edb. split.
      * apply (returns_new_appended h _ [∅; ∅] 0); [|reflexivity].
        rewrite (add_run L _ _ _ _ _ Ha Hb), Ed, Edb, Nat.add_0_r. reflexivity.
      * apply (returns_new_appended h _ [∅; ∅] 0); [|reflexivity].
        rewrite (sub_run L _ _ _ _ _ Ha Hb), Ed, Edb, Nat.add_0_r. reflexivity.
    + intros Hdb.
      rewrite (add_run L _ _ _ _ _ Ha Hb), (sub_run L _ _ _ _ _ Ha Hb), Ed.
      rewrite (size_nonzero _ Hdb). split; reflexivity.
  - intros Hd. pose proof (size_nonzero _ Hd) as Ed. unfold raises.
    split; [rewrite (add_run L _ _ _ _ _ Ha Hb), Ed; reflexivity|].
    split; [rewrite (sub_run L _ _ _ _ _ Ha Hb), Ed; reflexivity|].
    split; [rewrite Hmul, Ed; reflexivity|].
    split; [unfold __rmul__; rewrite Hmul, Ed; reflexivity|].
    split; [rewrite (neg_run L _ _ _ Ha), Ed; reflexivity|].
    intros Hnz. destruct (Hdiv Hnz) as [r E]. rewrite E, Hmul, Ed. reflexivity.
  - apply add_as_copy_iadd.
Qed.

Lemma lookup_second h (x y : gmap K scalar) :
  (h ++ [x; y]) !! Datatypes.S (length h) = Some y.
Proof.
  rewrite lookup_app_r by lia.
  replace (Datatypes.S (length h) - length h)%nat with 1%nat by lia. reflexivity.
Qed.

(** C7 (additive inverse), as the code has it.  For a container with empty
    storage [a + (-a)] and [a - a] are new containers and falsy.  For any
    other container both expressions raise RecursionError, [-a] and
    [a - a] at their first step, and leave the store as it was. *)
Theorem additive_inverse_outcomes (L : ScalarLaws S) h a d :
  h !! a = Some d ->
  (d = ∅ ->
     ((n <- __neg__ a ;; r <- __add__ a n ;; __bool__ r) h).1 = Ok false /\
     ((r <- __sub__ a a ;; __bool__ r) h).1 = Ok false) /\
  (d <> ∅ ->
     raises h (n <- __neg__ a ;; r <- __add__ a n ;; __bool__ r) RecursionError /\
     raises h (r <- __sub__ a a ;; __bool__ r) RecursionError).
Proof.
  intros Ha. split.
  - intros ->. split.
    + unfold bind at 1. rewrite (neg_run L _ _ _ Ha), map_size_empty. simpl.
      unfold bind at 1.
      rewrite (add_run L _ a (Datatypes.S (length h)) ∅ ∅)
        by (apply lookup_app_old, Ha || apply lookup_second).
      rewrite map_size_empty. simpl.
      rewrite (bool_run L _ _ ∅).
      * rewrite map_size_empty. reflexivity.
      * rewrite lookup_app_r by lia. rewrite Nat.sub_diag. reflexivity.
    + unfold bind. rewrite (sub_run L _ _ _ _ _ Ha Ha), map_size_empty. simpl.
      rewrite (bool_run L _ _ ∅).
      * rewrite map_size_empty. reflexivity.
      * rewrite lookup_app_r by lia. rewrite Nat.sub_diag. reflexivity.
  - intros Hd. pose proof (size_nonzero _ Hd) as Ed. unfold raises, bind. split.
    + rewrite (neg_run L _ _ _ Ha), Ed. reflexivity.
    + rewrite (sub_run L _ _ _ _ _ Ha Ha), Ed. reflexivity.
Qed.

(** C9 ([clean] without argument), as the code has it.  The tolerance is
    the binary64 number nearest to 1e-9.  When [abs] is defined on every
    stored coefficient, [clean()] returns the container itself, having
    removed exactly the entries with [abs(c) <= 1e-9].  When [abs] of a
    stored coefficient overflows, [clean()] raises OverflowError and
    removes nothing. *)
Theorem clean_default_tolerance h self d :
  h !! self = Some d ->
  atol_default = S754_finite false 4835703278458517 (-82) /\
  (abs_defined d = true ->
     exists d',
       clean self None h = (Ok self, <[self := d']> h) /\
       forall k c, d' !! k = Some c <->
                   d !! k = Some c /\
                   exists x, s_abs c = Some x /\ SFleb x atol_default = false) /\
  (abs_defined d = false -> clean self None h = (Raise OverflowError, h)).
Proof.
  intros Hs. split; [vm_compute; reflexivity|].
  rewrite (clean_run _ _ _ _ Hs). split.
  - intros Hd. rewrite Hd. eexists. split; [reflexivity|].
    intros k c. rewrite drop_le_lookup. unfold abs_le.
    destruct (d !! k) as [c'|] eqn:E.
    + destruct (proj1 (abs_defined_true d) Hd k c' E) as [x Ex]. rewrite Ex.
      destruct (SFleb x atol_default) eqn:El.
      * split; [discriminate|]. intros [[= ->] (y & Ey & Hy)]. congruence.
      * split.
        -- intros [= ->]. split; [reflexivity|]. exists x. split; assumption.
        -- intros [[= ->] _]. reflexivity.
    + split; [discriminate | intros [? _]; discriminate].
  - intros Hd. rewrite Hd. reflexivity.
Qed.

(** C10 (self-aliased [+=]), as the code has it.  [a += a] begins with
    [a.items()].  On a container with empty storage it returns [a], still
    empty, and [a == a * 2] is then True.  On any other container it raises
    RecursionError and leaves the store as it was: nothing is doubled. *)
Theorem iadd_self_outcomes (L : ScalarLaws S) h a d (two : scalar) :
  h !! a = Some d ->
  (d = ∅ ->
     __iadd__ a a h = (Ok a, h ++ [∅]) /\
     ((r <- __mul__ a two ;; __iadd__ a a ;;; __eq__ a (LinearDictRef r)) h).1
     = Ok (PyBool true)) /\
  (d <> ∅ -> raises h (__iadd__ a a) RecursionError).
Proof.
  intros Ha.
  assert (Hself : forall h', h' !! a = Some (∅ : gmap K scalar) ->
                  __iadd__ a a h' = (Ok a, h' ++ [∅])).
  { intros h' Ha'. rewrite (iadd_run L _ _ _ _ _ Ha' Ha'), map_size_empty. simpl.
    rewrite abs_defined_empty, drop_zeros_empty.
    rewrite insert_same by (apply lookup_app_old, Ha'). reflexivity. }
  split.
  - intros ->. split; [apply Hself, Ha|].
    unfold bind at 1. rewrite (mul_run L _ _ _ _ Ha), map_size_empty.
    cbn [Nat.eqb]. cbv beta iota.
    unfold bind. rewrite Hself by (apply lookup_app_old, Ha). cbv beta iota.
    rewrite (eq_run L _ a (length h) ∅ ∅).
    + rewrite map_size_empty. reflexivity.
    + apply lookup_app_old, lookup_app_old, Ha.
    + rewrite <- app_assoc. rewrite lookup_app_r by lia.
      rewrite Nat.sub_diag. reflexivity.
  - intros Hd. unfold raises.
    rewrite (iadd_run L _ _ _ _ _ Ha Ha), (size_nonzero _ Hd). reflexivity.
Qed.

End Claims.


(** ** Further properties of the container *)

Section MoreProperties.
Context {K : Type} `{Countable K} {S : Scalar}.
Implicit Types (h : heap K) (d o da db : gmap K scalar) (self other : loc).
Implicit Types (k v : K) (c : scalar) (l its terms : list (K * scalar)).
Implicit Types (a b : loc).

Lemma coef_setitem_eq d v c : coef (setitem d v c) v = reads c.
Proof.
  unfold coef, setitem, reads, stored, s_nonzero.
  destruct (s_eqb c s_zero); simpl.
  - rewrite lookup_delete_eq. reflexivity.
  - rewrite lookup_insert_eq. reflexivity.
Qed.

Lemma setitem_lookup_ne d v c k : k <> v -> setitem d v c !! k = d !! k.
Proof.
  intros Hne. unfold setitem. destruct (s_nonzero c).
  - apply lookup_insert_ne. congruence.
  - apply lookup_delete_ne. congruence.
Qed.

Lemma setitem_lookup_eq d v c : setitem d v c !! v = stored c.
Proof.
  unfold setitem, stored, s_nonzero. destruct (s_eqb c s_zero); simpl.
  - apply lookup_delete_eq.
  - apply lookup_insert_eq.
Qed.

(** Subscript write, then read.  After [a[v] = c] the subscript [a[v]]
    reads [c], or 0 when [c == 0] (the entry is then deleted), [v in a]
    answers [c != 0], every other key reads as before, and no other object
    changes. *)
Theorem setitem_then_read h self d v c :
  h !! self = Some d ->
  exists h',
    __setitem__ self v c h = (Ok tt, h') /\
    __getitem__ self v h' = (Ok (reads c), h') /\
    __contains__ self v h' = (Ok (s_nonzero c), h') /\
    (forall k, k <> v -> (__getitem__ self k h').1 = (__getitem__ self k h).1) /\
    (forall b, b <> self -> h' !! b = h !! b).
Proof.
  intros Hs. exists (<[self := setitem d v c]> h).
  assert (Hs' : <[self := setitem d v c]> h !! self = Some (setitem d v c))
    by (eapply lookup_written, Hs).
  split; [apply setitem_spec, Hs|]. split.
  - rewrite (getitem_spec _ _ _ _ Hs'), coef_setitem_eq. reflexivity.
  - split.
    + rewrite (contains_spec _ _ _ _ Hs'), setitem_lookup_eq.
      unfold stored, s_nonzero. destruct (s_eqb c s_zero) eqn:E; simpl.
      * reflexivity.
      * rewrite E. reflexivity.
    + split.
      * intros k Hne.
        rewrite (getitem_spec _ _ _ _ Hs'), (getitem_spec _ _ _ _ Hs). simpl.
        unfold coef. rewrite setitem_lookup_ne by exact Hne. reflexivity.
      * intros b Hne. apply list_lookup_insert_ne. congruence.
Qed.

(** Membership is a nonzero subscript: [v in a] answers exactly
    [a[v] != 0], for stored and for missing keys alike. *)
Theorem contains_iff_nonzero_item (L : ScalarLaws S) h self d v :
  h !! self = Some d ->
  exists c, __getitem__ self v h = (Ok c, h) /\
            __contains__ self v h = (Ok (s_nonzero c), h).
Proof.
  intros Hs. exists (coef d v). split; [apply getitem_spec, Hs|].
  rewrite (contains_spec _ _ _ _ Hs). unfold coef.
  destruct (d !! v); [reflexivity|].
  unfold s_nonzero. rewrite (law_zero_eq L). reflexivity.
Qed.

(** The enumerations return only for a container with empty storage.
    There [keys()], iteration, [values()] and [items()] are empty, [len] is
    0 and [bool] is False.  On a container with an entry, be it a zero
    entry, each of them raises RecursionError and leaves the store as it
    was. *)
Theorem enumerations_only_when_empty (L : ScalarLaws S) h self d :
  h !! self = Some d ->
  (d = ∅ ->
     (keys self h).1 = Ok [] /\ (__iter__ self h).1 = Ok [] /\
     (values self h).1 = Ok [] /\ (items self h).1 = Ok [] /\
     (__len__ self h).1 = Ok 0%nat /\ (__bool__ self h).1 = Ok false) /\
  (d <> ∅ ->
     raises h (keys self) RecursionError /\ raises h (__iter__ self) RecursionError /\
     raises h (values self) RecursionError /\ raises h (items self) RecursionError /\
     raises h (__len__ self) RecursionError /\ raises h (__bool__ self) RecursionError).
Proof.
  intros Hs. unfold raises.
  rewrite (keys_run L _ _ _ Hs), (iter_run L _ _ _ Hs), (values_run L _ _ _ Hs),
          (items_run L _ _ _ Hs), (len_run L _ _ _ Hs), (bool_run L _ _ _ Hs).
  split.
  - intros ->. rewrite map_size_empty. repeat split.
  - intros Hd. rewrite (size_nonzero _ Hd). repeat split.
Qed.

Lemma drop_le_idem atol d : drop_le atol (drop_le atol d) = drop_le atol d.
Proof.
  apply map_eq. intros k. rewrite !drop_le_lookup.
  destruct (d !! k) as [c|]; [|reflexivity].
  destruct (abs_le atol c) eqn:E; [reflexivity|]. rewrite E. reflexivity.
Qed.

(** [clean] only removes, and is idempotent.  When [abs] is defined on
    every stored coefficient, [clean(atol)] never adds or changes an entry,
    keeps exactly the entries with [abs(c) <= atol] false, returns the
    container, and a second [clean] with the same tolerance changes
    nothing.  When [abs] of a stored coefficient overflows, [clean] raises
    OverflowError and the store is as it was. *)
Theorem clean_only_removes h self d (atol : spec_float) :
  h !! self = Some d ->
  (abs_defined d = true ->
     exists d',
       clean self (Some atol) h = (Ok self, <[self := d']> h) /\
       d' ⊆ d /\
       (forall k c, d' !! k = Some c <->
                    d !! k = Some c /\
                    exists x, s_abs c = Some x /\ SFleb x atol = false) /\
       clean self (Some atol) (<[self := d']> h) = (Ok self, <[self := d']> h)) /\
  (abs_defined d = false -> raises h (clean self (Some atol)) OverflowError).
Proof.
  intros Hs. split.
  - intros Hd. exists (drop_le atol d).
    split; [rewrite (clean_run _ _ _ _ Hs), Hd; reflexivity|].
    split; [apply drop_le_subseteq|]. split.
    + intros k c. rewrite drop_le_lookup. unfold abs_le.
      destruct (d !! k) as [c'|] eqn:E.
      * destruct (proj1 (abs_defined_true d) Hd k c' E) as [x Ex]. rewrite Ex.
        destruct (SFleb x atol) eqn:El.
        -- split; [discriminate|]. intros [[= ->] (y & Ey & Hy)]. congruence.
        -- split.
           ++ intros [= ->]. split; [reflexivity|]. exists x. split; assumption.
           ++ intros [[= ->] _]. reflexivity.
      * split; [discriminate | intros [? _]; discriminate].
    + rewrite (clean_run _ self (drop_le atol d) (Some atol))
        by (eapply lookup_written, Hs).
      rewrite (abs_defined_subseteq d) by (apply drop_le_subseteq || exact Hd).
      rewrite insert_twice, drop_le_idem. reflexivity.
  - intros Hd. unfold raises. rewrite (clean_run _ _ _ _ Hs), Hd. reflexivity.
Qed.

Lemma drop_zeros_insert d k c :
  no_zero d -> drop_zeros (<[k := c]> d) = setitem d k c.
Proof.
  intros Hz. apply map_eq. intros k'. rewrite drop_zeros_lookup.
  destruct (decide (k' = k)) as [->|Hne].
  - rewrite lookup_insert_eq, setitem_lookup_eq. reflexivity.
  - rewrite lookup_insert_ne by congruence. rewrite setitem_lookup_ne by exact Hne.
    destruct (d !! k') as [c'|] eqn:E; [|reflexivity].
    rewrite (Hz k' c' E). reflexivity.
Qed.

(** [update] with one pair is a subscript write.  On a container without
    zero entries, when [abs] is defined on [c] and on the stored
    coefficients, [a.update([(k, c)])] and [a[k] = c] leave the same
    store. *)
Theorem update_single_is_setitem (L : ScalarLaws S) h self d k c :
  h !! self = Some d -> no_zero d -> abs_defined (<[k := c]> d) = true ->
  update self [(k, c)] h = __setitem__ self k c h.
Proof.
  intros Hs Hz Hd. rewrite (update_run L _ _ _ _ Hs), (setitem_spec _ _ _ _ _ Hs).
  unfold dict_update. simpl. rewrite Hd, (drop_zeros_insert _ _ _ Hz). reflexivity.
Qed.

Lemma last_write_fromkeys (vectors : list K) (x : scalar) k :
  last_write k (map (fun v => (v, x)) vectors)
  = if decide (k ∈ vectors) then Some x else None.
Proof.
  induction vectors as [|v vs IH].
  - destruct (decide (k ∈ [])) as [Hin|_]; [inversion Hin | reflexivity].
  - rewrite map_cons. cbn [last_write fst snd].
    rewrite IH. destruct (decide (k ∈ vs)) as [Hin|Hnin].
    + rewrite decide_True by (right; exact Hin). reflexivity.
    + destruct (decide (v = k)) as [->|Hne].
      * rewrite decide_True by left. reflexivity.
      * rewrite decide_False; [reflexivity|].
        intros Hin. apply elem_of_cons in Hin as [?|?]; [congruence | contradiction].
Qed.

Lemma dict_fromkeys_lookup (vectors : list K) (x : scalar) k :
  dict_fromkeys vectors x !! k = if decide (k ∈ vectors) then Some x else None.
Proof.
  unfold dict_fromkeys. rewrite dict_update_lookup, last_write_fromkeys.
  destruct (decide (k ∈ vectors)); [reflexivity | apply lookup_empty].
Qed.

(** [fromkeys] gives every listed key the same coefficient.  When [abs]
    is defined on [complex(coefficient)], the new container holds that
    number for each key of [vectors], listed once or several times, and
    nothing else; it is empty when the number is zero.  When [abs] of it
    overflows and a key is listed, [fromkeys] raises OverflowError. *)
Theorem fromkeys_entries (L : ScalarLaws S) h (vectors : list K) (coefficient : scalar) :
  (is_Some (s_abs (s_complex coefficient)) ->
     exists d',
       fromkeys vectors (Some coefficient) h = (Ok (length h), h ++ [d']) /\
       (forall k, d' !! k = if decide (k ∈ vectors) then stored (s_complex coefficient)
                            else None) /\
       (s_eqb (s_complex coefficient) s_zero = true -> d' = ∅)) /\
  (s_abs (s_complex coefficient) = None -> vectors <> [] ->
     (fromkeys vectors (Some coefficient) h).1 = Raise OverflowError).
Proof.
  unfold fromkeys. rewrite (LinearDict_run L), dict_update_items.
  set (m := dict_fromkeys vectors (s_complex coefficient)).
  split.
  - intros Habs.
    assert (Hd : abs_defined m = true).
    { apply abs_defined_true. intros k c. unfold m. rewrite dict_fromkeys_lookup.
      destruct (decide (k ∈ vectors)); [intros [= <-]; exact Habs | discriminate]. }
    rewrite Hd. eexists. split; [reflexivity|].
    assert (Hl : forall k, drop_zeros m !! k
                 = if decide (k ∈ vectors) then stored (s_complex coefficient) else None).
    { intros k. rewrite drop_zeros_lookup. unfold m. rewrite dict_fromkeys_lookup.
      destruct (decide (k ∈ vectors)); reflexivity. }
    split; [exact Hl|].
    intros Hz. apply map_eq. intros k. rewrite Hl, lookup_empty.
    unfold stored. rewrite Hz. destruct (decide (k ∈ vectors)); reflexivity.
  - intros Habs Hv.
    assert (Hd : abs_defined m = false).
    { apply abs_defined_false. destruct vectors as [|v vs]; [contradiction|].
      exists v, (s_complex coefficient). split; [|exact Habs].
      unfold m. rewrite dict_fromkeys_lookup, decide_True by left. reflexivity. }
    rewrite Hd. reflexivity.
Qed.

(** [+=] and [-=] complete only with a right operand whose storage is
    empty, and then they are a [clean(atol=0)] of the receiver: when [abs]
    is defined on its coefficients, it is returned holding its nonzero
    entries, and no other object of the store changes. *)
Theorem inplace_add_of_empty (L : ScalarLaws S) h a e d :
  h !! a = Some d -> h !! e = Some ∅ -> abs_defined d = true ->
  (exists h', __iadd__ a e h = (Ok a, h') /\ h' !! a = Some (drop_zeros d) /\
              forall b, b <> a -> preserved_at b h h') /\
  (exists h', __isub__ a e h = (Ok a, h') /\ h' !! a = Some (drop_zeros d) /\
              forall b, b <> a -> preserved_at b h h').
Proof.
  intros Ha He Hd.
  rewrite (iadd_run L _ _ _ _ _ Ha He), (isub_run L _ _ _ _ _ Ha He).
  rewrite map_size_empty, Hd. simpl.
  assert (Hl : <[a := drop_zeros d]> (h ++ [∅]) !! a = Some (drop_zeros d))
    by (eapply lookup_written, lookup_app_old, Ha).
  assert (Hp : forall b, b <> a -> preserved_at b h (<[a := drop_zeros d]> (h ++ [∅]))).
  { intros b Hne x Hx. rewrite list_lookup_insert_ne by congruence.
    apply lookup_app_old, Hx. }
  split; eexists; (split; [reflexivity | split; [exact Hl | exact Hp]]).
Qed.

(** A copy can only be taken of a container with empty storage: it is a
    new, empty object; a later subscript write to the copy leaves the
    original as it was, and one to the original leaves the copy as it was.
    On a container with an entry [copy] raises RecursionError and leaves
    the store as it was. *)
Theorem copy_is_independent (L : ScalarLaws S) h a d v c :
  h !! a = Some d ->
  (d = ∅ ->
     exists b h1,
       copy a h = (Ok b, h1) /\ h !! b = None /\
       h1 !! b = Some ∅ /\ h1 !! a = Some ∅ /\
       (exists h2, __setitem__ b v c h1 = (Ok tt, h2) /\ h2 !! a = Some ∅) /\
       (exists h2, __setitem__ a v c h1 = (Ok tt, h2) /\ h2 !! b = Some ∅)) /\
  (d <> ∅ -> raises h (copy a) RecursionError).
Proof.
  intros Ha. unfold raises. rewrite (copy_run L _ _ _ Ha). split.
  - intros ->. rewrite map_size_empty. simpl.
    exists (length h), (h ++ [∅]).
    assert (Hlt : (a < length h)%nat) by (eapply lookup_lt_Some, Ha).
    split; [reflexivity|].
    split; [apply lookup_ge_None; lia|].
    split; [apply lookup_fresh|].
    split; [apply lookup_old, Ha|]. split.
    + eexists. split; [apply setitem_spec, lookup_fresh|].
      rewrite list_lookup_insert_ne by lia. apply lookup_old, Ha.
    + eexists. split; [eapply setitem_spec, lookup_old, Ha|].
      rewrite list_lookup_insert_ne by lia. apply lookup_fresh.
  - intros Hd. rewrite (size_nonzero _ Hd). reflexivity.
Qed.

(** [_approx_eq_] answers only between two containers with empty storage,
    and then True whatever the tolerance, a negative one or NaN included;
    as soon as one of them has an entry it raises RecursionError.  Against
    a value that is not a [LinearDict] it returns [NotImplemented]. *)
Theorem approx_eq_outcomes (L : ScalarLaws S) h a b da db (atol : spec_float) :
  h !! a = Some da -> h !! b = Some db ->
  (da = ∅ -> db = ∅ ->
     (_approx_eq_ a (LinearDictRef b) atol h).1 = Ok (PyBool true)) /\
  (da <> ∅ \/ db <> ∅ ->
     (_approx_eq_ a (LinearDictRef b) atol h).1 = Raise RecursionError) /\
  _approx_eq_ a NotALinearDict atol h = (Ok NotImplemented, h).
Proof.
  intros Ha Hb. rewrite (approx_eq_run L _ _ _ _ _ _ Ha Hb).
  split; [|split; [|reflexivity]].
  - intros -> ->. rewrite map_size_empty. reflexivity.
  - intros Hn. destruct (Nat.eqb (size da) 0) eqn:Ea; [|reflexivity].
    destruct Hn as [Hn|Hn]; [apply size_nonzero in Hn; congruence|].
    rewrite (size_nonzero _ Hn). reflexivity.
Qed.

End MoreProperties.

(** ** String rendering *)

Section Rendering.
Context {K : Type} `{Countable K} {KK : Key K} {S : Scalar}.
Implicit Types (fs : format_spec).

Lemma head_is_cons a c (t : string) : head_is a (String c t) = Ascii.eqb a c.
Proof. reflexivity. Qed.

Lemma head_is_app a (s t : string) : s <> "" -> head_is a (s +:+ t) = head_is a s.
Proof. destruct s; [intros E; contradiction E; reflexivity | reflexivity]. Qed.

Lemma int_digits_head n :
  int_digits n <> "" /\ head_is "+" (int_digits n) = false.
Proof.
  unfold int_digits. destruct (N.to_uint (Z.to_N n)); split; (discriminate || reflexivity).
Qed.

Lemma fixed_digits_head n p :
  fixed_digits n p <> "" /\ head_is "+" (fixed_digits n p) = false.
Proof.
  destruct p as [|p]; [apply int_digits_head|].
  unfold fixed_digits.
  destruct (int_digits_head (n / 10 ^ Z.of_nat (Datatypes.S p))) as [Hn Hh].
  rewrite head_is_app by exact Hn. split; [|exact Hh].
  destruct (int_digits _); [contradiction Hn; reflexivity | discriminate].
Qed.

Lemma format_float_head fs x :
  plus_sign fs = false ->
  format_float fs x <> "" /\ head_is "+" (format_float fs x) = false.
Proof.
  intros Hp.
  assert (G : forall s n, sign_str false s +:+ fixed_digits n (precision fs) <> "" /\
              head_is "+" (sign_str false s +:+ fixed_digits n (precision fs)) = false).
  { intros s n. destruct s; [split; [discriminate | reflexivity]|].
    apply fixed_digits_head. }
  destruct x as [s|s| |s m e]; unfold format_float; rewrite Hp; try apply G;
    try destruct s; split; (discriminate || reflexivity).
Qed.

Lemma format_coefficient_head fs (c : scalar) :
  plus_sign fs = false -> head_is "+" (_format_coefficient fs c) = false.
Proof.
  intros Hp. unfold _format_coefficient. cbv zeta.
  destruct (format_float_head fs (s_real (s_complex c)) Hp) as [Hrn Hr].
  destruct (format_float_head fs (s_imag (s_complex c)) Hp) as [Hin Hi].
  destruct (_ && _); [reflexivity|].
  destruct (float_str_is_zero _); [exact Hr|].
  destruct (float_str_is_zero _); [rewrite head_is_app by exact Hin; exact Hi|].
  destruct (_ && _); [reflexivity|].
  destruct (_ || _); reflexivity.
Qed.

(** Every term is signed.  Under a specification ['.<p>f'] without the [+]
    flag, hence under the ['.3f'] of [str], [_format_term] returns the empty
    string, or a string that starts with [-], or one that starts with [+]
    followed by a character that is not [+]. *)
Theorem format_term_is_signed fs (v : K) (c : scalar) :
  plus_sign fs = false -> signed_term (_format_term fs v c) = true.
Proof.
  intros Hp. unfold _format_term. cbv zeta.
  pose proof (format_coefficient_head fs c Hp) as Hh.
  destruct (_format_coefficient fs c) as [|a t]; [reflexivity|].
  rewrite head_is_cons in Hh.
  change (String a t +:+ "*" +:+ key_str v) with (String a (t +:+ "*" +:+ key_str v)).
  rewrite !head_is_cons, Hh, orb_false_l.
  destruct (Ascii.eqb_spec "-" a) as [<-|Hn]; [reflexivity|].
  change (negb (Ascii.eqb a "+") = true).
  rewrite Ascii.eqb_sym, Hh. reflexivity.
Qed.

Lemma scaled_round_small m e p :
  e < 0 -> 2 * Z.pos m * 10 ^ Z.of_nat p <= 2 ^ (- e) -> scaled_round m e p = 0.
Proof.
  intros He Hle. unfold scaled_round. cbv zeta.
  destruct (0 <=? e) eqn:E; [apply Z.leb_le in E; lia|].
  assert (0 < 10 ^ Z.of_nat p) by (apply Z.pow_pos_nonneg; lia).
  assert (Hn : 0 < Z.pos m * 10 ^ Z.of_nat p) by nia.
  rewrite Z.div_small, Z.mod_small by lia.
  destruct (Z.compare_spec (2 * (Z.pos m * 10 ^ Z.of_nat p)) (2 ^ (- e)));
    [reflexivity | reflexivity | lia].
Qed.

Lemma all_chars_app test s t :
  all_chars test (s +:+ t) = all_chars test s && all_chars test t.
Proof.
  induction s as [|c s IH]; simpl; [reflexivity|]. rewrite IH, andb_assoc. reflexivity.
Qed.

Lemma frac_digits_zero p :
  all_chars (fun c => Ascii.eqb c "0" || Ascii.eqb c ".") (frac_digits p 0) = true.
Proof.
  assert (G : forall n, n = 0 ->
    all_chars (fun c => Ascii.eqb c "0" || Ascii.eqb c ".") (frac_digits p n) = true).
  { induction p as [|p IH]; intros n ->; simpl; [reflexivity|].
    rewrite all_chars_app, IH by reflexivity. reflexivity. }
  apply G. reflexivity.
Qed.

Lemma fixed_digits_zero p :
  exists t, fixed_digits 0 p = String "0" t /\
            all_chars (fun c => Ascii.eqb c "0" || Ascii.eqb c ".") t = true.
Proof.
  destruct p as [|p]; [exists ""; split; reflexivity|].
  unfold fixed_digits. rewrite Zdiv_0_l, Zmod_0_l.
  eexists. split; [reflexivity|].
  change (all_chars (fun c => Ascii.eqb c "0" || Ascii.eqb c ".")
            ("." +:+ frac_digits (Datatypes.S p) 0) = true).
  rewrite all_chars_app, frac_digits_zero. reflexivity.
Qed.

Lemma format_float_zero fs x :
  b64_rounds_to_zero (precision fs) x = true ->
  float_str_is_zero (format_float fs x) = true.
Proof.
  intros Hx.
  assert (E : exists s, format_float fs x
                        = sign_str (plus_sign fs) s +:+ fixed_digits 0 (precision fs)).
  { destruct x as [s|s| |s m e]; try discriminate; simpl; [eexists; reflexivity|].
    simpl in Hx. apply andb_true_iff in Hx as [He Hle].
    apply Z.ltb_lt in He. apply Z.leb_le in Hle.
    rewrite scaled_round_small by assumption. eexists; reflexivity. }
  destruct E as [s ->].
  destruct (fixed_digits_zero (precision fs)) as (t & -> & Ht).
  unfold float_str_is_zero, sign_str.
  destruct s; [|destruct (plus_sign fs)]; unfold head_is; simpl; exact Ht.
Qed.

(** Rounding for display elides a term: when the real and the imaginary
    part of a coefficient are at most [0.5 * 10^-p] in magnitude,
    [_format_term] with [p] digits returns the empty string, although the
    coefficient may be different from zero. *)
Theorem tiny_terms_are_elided fs (v : K) (c : scalar) :
  rounds_to_zero (precision fs) c = true -> _format_term fs v c = "".
Proof.
  unfold rounds_to_zero. rewrite andb_true_iff. intros [Hr Hi].
  unfold _format_term, _format_coefficient. cbv zeta.
  rewrite (format_float_zero _ _ Hr), (format_float_zero _ _ Hi). reflexivity.
Qed.


(** [format] and [str] return only for a container with empty storage:
    the number 0 under the given specification, ["0.000"] for [str].  On a
    container with an entry they raise RecursionError and leave the store
    as it was. *)
Theorem format_only_when_empty (L : ScalarLaws S) (h : heap K) (self : loc)
    (d : gmap K scalar) fs :
  h !! self = Some d ->
  (d = ∅ ->
     (__format__ self fs h).1 = Ok (format_float fs (b64_of_Z 0)) /\
     (__str__ self h).1 = Ok "0.000") /\
  (d <> ∅ ->
     raises h (__format__ self fs) RecursionError /\
     raises h (__str__ self) RecursionError).
Proof.
  intros Hs. unfold raises, __str__. rewrite !(format_run L _ _ _ _ Hs). split.
  - intros ->. rewrite map_size_empty. split; reflexivity.
  - intros Hd. rewrite (size_nonzero _ Hd). split; reflexivity.
Qed.

End Rendering.


(** ** Python's complex numbers satisfy the laws *)

Section ComplexLaws.

Lemma SFeqb_zero x : SFeqb x b64_zero = b64_is_zero x.
Proof. destruct x as [s|s| |s m e]; try destruct s; reflexivity. Qed.

Lemma c_zero_unfold : c_of_Z 0 = (b64_zero, b64_zero).
Proof. reflexivity. Qed.

Lemma c_eqb_zero (z : complex) :
  c_eqb z (c_of_Z 0) = b64_is_zero z.1 && b64_is_zero z.2.
Proof. rewrite c_zero_unfold. unfold c_eqb. simpl. rewrite !SFeqb_zero. reflexivity. Qed.

Lemma b64_absval_zero x : SFeqb (b64_absval x) b64_zero = b64_is_zero x.
Proof. destruct x as [s|s| |s m e]; try destruct s; reflexivity. Qed.

Lemma SFleb_absval_zero x y :
  b64_is_zero x = true -> SFleb (b64_absval y) (b64_absval x) = b64_is_zero y.
Proof.
  destruct x as [s|s| |s m e]; try discriminate. intros _.
  destruct y as [s'|s'| |s' m' e']; try destruct s'; destruct s; reflexivity.
Qed.

Lemma c_quot_zero (a b : complex) : c_quot a b = None <-> c_eqb b (c_of_Z 0) = true.
Proof.
  rewrite c_eqb_zero. unfold c_quot.
  destruct (b64_is_zero b.1) eqn:E1.
  - rewrite (SFleb_absval_zero _ _ E1), b64_absval_zero, E1. simpl.
    destruct (b64_is_zero b.2) eqn:E2.
    + tauto.
    + destruct (SFleb _ _); split; discriminate.
  - rewrite b64_absval_zero, E1. simpl.
    destruct (SFleb _ _); [split; discriminate|].
    destruct (SFleb _ _); split; discriminate.
Qed.

Lemma c_abs_zero (z : complex) x :
  c_abs z = Some x -> SFleb x b64_zero = c_eqb z (c_of_Z 0).
Proof.
  rewrite c_eqb_zero. unfold c_abs.
  destruct (b64_is_inf z.1 || b64_is_inf z.2) eqn:Ei.
  { intros [= <-]. destruct z as [[] []]; simpl in *; (discriminate || reflexivity). }
  destruct (b64_is_nan z.1 || b64_is_nan z.2) eqn:En.
  { intros [= <-]. destruct z as [[] []]; simpl in *; (discriminate || reflexivity). }
  destruct (b64_is_zero z.1 && b64_is_zero z.2); [intros [= <-]; reflexivity|].
  destruct (b64_hypot z.1 z.2) as [| | |[] m e]; try discriminate.
  intros [= <-]. reflexivity.
Qed.

Lemma complex_laws : ScalarLaws complex_Scalar.
Proof.
  constructor; simpl.
  - reflexivity.
  - apply c_abs_zero.
  - intros a. apply c_quot_zero.
Qed.

End ComplexLaws.


(** ** The modulus of a binary64 complex number *)

Section Hypot.

Lemma digits2_pos_size p : digits2_pos p = Pos.size p.
Proof. induction p as [p IH|p IH|]; simpl; [rewrite IH | rewrite IH |]; reflexivity. Qed.

Lemma Zdigits2_log2 m : 0 < m -> Zdigits2 m = Z.log2 m + 1.
Proof.
  destruct m as [|p|p]; try lia. intros _. simpl. rewrite digits2_pos_size.
  destruct p as [p|p|]; simpl; lia.
Qed.

Lemma shr_1_m mrs : 0 <= shr_m mrs -> shr_m (shr_1 mrs) = Z.div2 (shr_m mrs).
Proof.
  destruct mrs as [m r s]. simpl. destruct m as [|[p|p|]|p]; try lia; reflexivity.
Qed.

Lemma iter_shr_1_m n : forall mrs,
  0 <= shr_m mrs ->
  shr_m (SpecFloat.iter_pos shr_1 n mrs) = Z.shiftr (shr_m mrs) (Z.pos n).
Proof.
  assert (Hd : forall m, 0 <= m -> 0 <= Z.div2 m)
    by (intros m Hm; apply Z.div2_nonneg, Hm).
  assert (Hs : forall m k, 0 <= m -> 0 <= Z.shiftr m k)
    by (intros m k Hm; apply Z.shiftr_nonneg, Hm).
  induction n as [n IH|n IH|]; intros mrs Hm; simpl.
  - assert (H1 : 0 <= shr_m (shr_1 mrs)) by (rewrite shr_1_m; auto).
    assert (H2 : 0 <= shr_m (SpecFloat.iter_pos shr_1 n (shr_1 mrs)))
      by (rewrite IH; auto).
    rewrite (IH _ H2), (IH _ H1), shr_1_m, Z.div2_spec by exact Hm.
    rewrite !Z.shiftr_shiftr by lia. f_equal. lia.
  - assert (H2 : 0 <= shr_m (SpecFloat.iter_pos shr_1 n mrs)) by (rewrite IH; auto).
    rewrite (IH _ H2), (IH _ Hm).
    rewrite Z.shiftr_shiftr by lia. f_equal. lia.
  - rewrite shr_1_m by exact Hm. apply Z.div2_spec.
Qed.

Lemma shiftr_positive m n : 0 < m -> 0 <= n -> n < Zdigits2 m -> 0 < Z.shiftr m n.
Proof.
  intros Hm Hn Hd. rewrite Zdigits2_log2 in Hd by exact Hm.
  rewrite Z.shiftr_div_pow2 by exact Hn.
  apply Z.div_str_pos. split; [apply Z.pow_pos_nonneg; lia|].
  apply Z.log2_le_pow2; lia.
Qed.

Lemma shr_record_m m l : shr_m (shr_record_of_loc m l) = m.
Proof. destruct l as [|[]]; reflexivity. Qed.

(** A positive mantissa above the least exponent is not shifted away. *)
Lemma shr_fexp_positive m e l :
  0 < m -> -1074 <= e ->
  0 < shr_m (shr_fexp 53 1024 m e l).1 /\ -1074 <= (shr_fexp 53 1024 m e l).2.
Proof.
  intros Hm He. unfold shr_fexp, shr.
  assert (Hdig : 1 <= Zdigits2 m)
    by (rewrite Zdigits2_log2 by exact Hm; pose proof (Z.log2_nonneg m); lia).
  set (k := Zdigits2 m + e) in *.
  assert (Hf : fexp 53 1024 k = Z.max (k - 53) (-1074)) by reflexivity.
  destruct (fexp 53 1024 k - e) as [|n|n] eqn:En; simpl.
  - rewrite shr_record_m. split; assumption.
  - rewrite iter_shr_1_m by (rewrite shr_record_m; lia).
    rewrite shr_record_m. split; [|lia].
    apply shiftr_positive; [exact Hm | lia | lia].
  - rewrite shr_record_m. split; assumption.
Qed.

Lemma round_nearest_even_ge m l : m <= round_nearest_even m l.
Proof. destruct l as [|[]]; simpl; try lia. destruct (Z.even m); lia. Qed.

Lemma binary_round_aux_positive m e l :
  0 < m -> -1074 <= e ->
  (exists m' e', binary_round_aux 53 1024 false m e l = S754_finite false m' e') \/
  binary_round_aux 53 1024 false m e l = S754_infinity false.
Proof.
  intros Hm He. unfold binary_round_aux.
  destruct (shr_fexp_positive m e l Hm He) as [H1 H2].
  destruct (shr_fexp 53 1024 m e l) as [mrs' e1]. simpl in H1, H2.
  pose proof (round_nearest_even_ge (shr_m mrs') (loc_of_shr_record mrs')) as Hr.
  destruct (shr_fexp_positive (round_nearest_even (shr_m mrs') (loc_of_shr_record mrs'))
              e1 loc_Exact) as [H3 _]; [lia | exact H2 |].
  destruct (shr_fexp 53 1024 _ e1 loc_Exact) as [mrs'' e2]. simpl in H3.
  destruct (shr_m mrs'') as [|p|p]; try lia.
  destruct (e2 <=? 1024 - 53); [left; eauto | right; reflexivity].
Qed.

Lemma sqrt_core_positive p e :
  -1074 <= Z.div2 e ->
  exists q e' l, SFsqrt_core_binary 53 1024 (Z.pos p) e = (q, e', l) /\
                 0 < q /\ -1074 <= e'.
Proof.
  intros He. unfold SFsqrt_core_binary.
  set (e' := Z.min _ (Z.div2 e)).
  assert (He' : -1074 <= e').
  { unfold e'. apply Z.min_glb; [|exact He]. unfold fexp. apply Z.le_max_r. }
  assert (Hs : 0 <= e - 2 * e').
  { assert (e' <= Z.div2 e) by apply Z.le_min_r.
    pose proof (Z.div2_odd e). destruct (Z.odd e); simpl in *; lia. }
  set (m' := match e - 2 * e' with Z0 => Z.pos p | Zpos _ => _ | Zneg _ => _ end).
  assert (Hm' : 0 < m').
  { unfold m'. destruct (e - 2 * e') as [|s|s] eqn:Es; try lia.
    rewrite Z.shiftl_mul_pow2 by lia.
    apply Z.mul_pos_pos; [lia | apply Z.pow_pos_nonneg; lia]. }
  pose proof (Z.sqrtrem_spec m' (Z.lt_le_incl _ _ Hm')) as Hspec.
  destruct (Z.sqrtrem m') as [q r]. destruct Hspec as [Hq Hr].
  eexists _, _, _. split; [reflexivity|]. split; [nia | exact He'].
Qed.

(** [hypot] of two binary64 numbers that are not both zero is a positive
    number or plus infinity: in [c_abs] the last branch stands for the
    infinite result, where the interpreter raises OverflowError. *)
Lemma b64_hypot_positive x y :
  b64_is_finite x = true -> b64_is_finite y = true ->
  -1074 <= b64_exponent x -> -1074 <= b64_exponent y ->
  b64_is_zero x && b64_is_zero y = false ->
  (exists m e, b64_hypot x y = S754_finite false m e) \/
  b64_hypot x y = S754_infinity false.
Proof.
  intros Fx Fy Ex Ey Hz. unfold b64_hypot.
  set (e0 := Z.min (b64_exponent x) (b64_exponent y)).
  assert (He0 : -1074 <= e0) by (apply Z.min_glb; assumption).
  assert (Hu : forall u, b64_is_finite u = true -> e0 <= b64_exponent u ->
               0 <= b64_units u e0 /\ (b64_is_zero u = false -> 0 < b64_units u e0)).
  { intros [s|s| |s m e]; simpl; try discriminate; intros _ Hle.
    - split; [lia | discriminate].
    - assert (0 < 2 ^ (e - e0)) by (apply Z.pow_pos_nonneg; lia). split; nia. }
  destruct (Hu x Fx (Z.le_min_l _ _)) as [Hx0 Hx1].
  destruct (Hu y Fy (Z.le_min_r _ _)) as [Hy0 Hy1].
  assert (Hsum : 0 < b64_units x e0 * b64_units x e0 + b64_units y e0 * b64_units y e0).
  { apply andb_false_iff in Hz as [Hz|Hz]; [specialize (Hx1 Hz) | specialize (Hy1 Hz)]; nia. }
  destruct (_ + _) as [|n|n]; try lia.
  unfold SFsqrt.
  destruct (sqrt_core_positive n (2 * e0)) as (q & e' & l & -> & Hq & He').
  { replace (2 * e0) with (e0 * 2) by lia.
    change (e0 * 2) with (Z.double e0 * 1 + 0) || idtac.
    rewrite Z.div2_div, Z.div_mul by lia. exact He0. }
  apply binary_round_aux_positive; assumption.
Qed.

End Hypot.


(** ** The scenarios of the specification, evaluated *)

(** C8 (default rendering), as the code has it: the empty container
    renders as ["0.000"], the format ['.3f'] applied to 0; and
    [_format_term] renders the terms of the other scenarios, under
    ['.3f'], as ["+1.000*A"], ["-1.000*A"], ["+2.000j*A"] and
    ["-2.000*B"]. *)
Theorem str_scenarios :
  ((a <- LinearDict [] ;; __str__ a) empty_store).1 = Ok "0.000" /\
  _format_term (FixedPoint false 3) "A" (c_of_Z 1) = "+1.000*A" /\
  _format_term (FixedPoint false 3) "A" (c_of_Z (-1)) = "-1.000*A" /\
  _format_term (FixedPoint false 3) "A" (b64_zero, b64_of_Z 2) = "+2.000j*A" /\
  _format_term (FixedPoint false 3) "B" (c_of_Z (-2)) = "-2.000*B".
Proof. repeat split; vm_compute; reflexivity. Qed.

(** C8 fails as stated: the empty container does not render as ["0"]. *)
Lemma str_of_empty_is_not_0 :
  ((a <- LinearDict [] ;; __str__ a) empty_store).1 <> Ok "0".
Proof. vm_compute. discriminate. Qed.

(** C1 fails as stated: [update] writes [y: 0j] and [x: 1.5e308+1.5e308j],
    its [clean] raises OverflowError before it deletes anything, and the
    subscript write that follows completes on a container that holds the
    zero entry. *)
Lemma zero_entry_survives_overflow :
  outcomes overflow_program empty_store = [Ok tt; Raise OverflowError; Ok tt] /\
  exists d, exec_all overflow_program empty_store !! 0%nat = Some d /\
            d !! "y" = Some (c_of_Z 0).
Proof.
  split; [vm_compute; reflexivity|].
  eexists. split; vm_compute; reflexivity.
Qed.

(** C9 fails as stated: on [{x: 1.5e308+1.5e308j}], [clean()] does not
    return the container; it raises OverflowError. *)
Lemma clean_raises_on_overflow :
  (clean 0%nat None store_huge).1 = Raise OverflowError.
Proof. vm_compute. reflexivity. Qed.

(** ** The theorems at concrete containers *)

Lemma empty_store_no_zero : heap_no_zero empty_store.
Proof. intros l d Hl. discriminate Hl. Qed.

Lemma one_entry_lookup k (c : complex) k' (c' : @scalar complex_Scalar) :
  one_entry k c !! k' = Some c' -> c' = c.
Proof. unfold one_entry. intros Hk. apply lookup_singleton_Some in Hk as [_ <-]. reflexivity. Qed.

Lemma x1_no_zero : no_zero (one_entry "x" (c_of_Z 1)).
Proof. intros k c Hk. apply one_entry_lookup in Hk as ->. reflexivity. Qed.

Lemma x1_not_empty : one_entry "x" (c_of_Z 1) <> ∅.
Proof. unfold one_entry. apply insert_non_empty. Qed.

Lemma padded_not_empty : <["z" := c_of_Z 0]> (one_entry "x" (c_of_Z 1)) <> ∅.
Proof. apply insert_non_empty. Qed.

(** The sample program raises RecursionError once and ZeroDivisionError
    once, and never OverflowError. *)
Lemma zero_elision_invariant_witness :
  heap_no_zero (exec_all sample_program empty_store) /\
  forall (h : heap string) self d, h !! self = Some d -> zero_hidden h self d.
Proof.
  apply (zero_elision_invariant complex_laws sample_program empty_store).
  - exact empty_store_no_zero.
  - assert (E : outcomes sample_program empty_store
                = [Ok tt; Ok tt; Ok tt; Ok tt; Ok tt; Ok tt;
                   Raise RecursionError; Raise ZeroDivisionError])
      by (vm_compute; reflexivity).
    rewrite E. repeat constructor; discriminate.
Defined.

(** The scenario of C2: [{x: 1}] updated with [{x: 2}] holds [x: 2];
    [{x: 1} += {x: 2}] raises RecursionError. *)
Lemma update_overwrites_iadd_recurses_witness :
  (exists d', LinearDict ([("x", c_of_Z 1)] ++ ("x", c_of_Z 2) :: []) store_x1_x2
              = (Ok 2%nat, store_x1_x2 ++ [d']) /\
              d' !! "x" = Some (c_of_Z 2)) /\
  (exists d', update 0%nat ([("x", c_of_Z 1)] ++ ("x", c_of_Z 2) :: []) store_x1_x2
              = (Ok tt, <[0%nat := d']> store_x1_x2) /\
              d' !! "x" = Some (c_of_Z 2)) /\
  __iadd__ 0%nat 1%nat store_x1_x2 = (Raise RecursionError, store_x1_x2).
Proof.
  destruct (update_overwrites_iadd_recurses complex_laws store_x1_x2
              [("x", c_of_Z 1)] [] "x" (c_of_Z 2) 0%nat 1%nat
              (one_entry "x" (c_of_Z 1)) (one_entry "x" (c_of_Z 2)) (c_of_Z 2))
    as (Hnew & Hupd & _ & Hadd); try reflexivity.
  - intros Hin. inversion Hin.
  - split; [apply Hnew; vm_compute; reflexivity|].
    split; [apply Hupd; vm_compute; reflexivity | exact Hadd].
Defined.

(** [{x: 1} == {x: 2}] raises; two empty containers are equal. *)
Lemma exact_equality_outcomes_witness :
  ((__eq__ 0%nat (LinearDictRef 1%nat) store_x1_x2).1 = Raise RecursionError /\
   (__ne__ 0%nat (LinearDictRef 1%nat) store_x1_x2).1 = Raise RecursionError) /\
  ((__eq__ 0%nat (LinearDictRef 1%nat) store_empties).1 = Ok (PyBool true) /\
   (__ne__ 0%nat (LinearDictRef 1%nat) store_empties).1 = Ok (PyBool false)) /\
  __eq__ 0%nat NotALinearDict store_x1_x2 = (Ok NotImplemented, store_x1_x2) /\
  __ne__ 0%nat NotALinearDict store_x1_x2 = (Ok NotImplemented, store_x1_x2).
Proof.
  destruct (exact_equality_outcomes complex_laws store_x1_x2 0%nat 1%nat
              (one_entry "x" (c_of_Z 1)) (one_entry "x" (c_of_Z 2)) eq_refl eq_refl)
    as (_ & Hraise & Hn).
  destruct (exact_equality_outcomes complex_laws store_empties 0%nat 1%nat ∅ ∅
              eq_refl eq_refl) as (Htrue & _).
  split; [apply Hraise; left; exact x1_not_empty|].
  split; [apply Htrue; reflexivity | exact Hn].
Defined.

(** Dividing [{x: 1}] by 0 raises and changes nothing; dividing it by 2 is
    multiplying it by [1 / 2]. *)
Lemma division_by_scalar_witness :
  __truediv__ 0%nat (c_of_Z 0) store_x1_x2 = (Raise ZeroDivisionError, store_x1_x2) /\
  exists r, c_quot (c_of_Z 1) (c_of_Z 2) = Some r /\
            __truediv__ 0%nat (c_of_Z 2) store_x1_x2 = __mul__ 0%nat r store_x1_x2.
Proof.
  split.
  - apply (proj1 (division_by_scalar complex_laws store_x1_x2 0%nat
                    (one_entry "x" (c_of_Z 1)) (c_of_Z 0) eq_refl)).
    reflexivity.
  - apply (proj2 (division_by_scalar complex_laws store_x1_x2 0%nat
                    (one_entry "x" (c_of_Z 1)) (c_of_Z 2) eq_refl)).
    reflexivity.
Defined.

Lemma lookup_total_witness :
  __getitem__ 0%nat "y" store_x1_x2 = (Ok (c_of_Z 0), store_x1_x2) /\
  get 0%nat "y" (Obj tt) store_x1_x2 = (Ok (Obj tt), store_x1_x2).
Proof.
  apply (lookup_total complex_laws store_x1_x2 0%nat
           (one_entry "x" (c_of_Z 1)) "y" (Obj tt)).
  reflexivity.
Defined.

(** With [a = {x: 1}] and [b = {x: 2}] every operator raises and the store
    is as it was; with two empty containers [a + b] and [-a] are new. *)
Lemma operators_leave_operands_witness :
  (raises store_x1_x2 (__add__ 0%nat 1%nat) RecursionError /\
   raises store_x1_x2 (__sub__ 0%nat 1%nat) RecursionError /\
   raises store_x1_x2 (__mul__ 0%nat (c_of_Z 2)) RecursionError /\
   raises store_x1_x2 (__rmul__ 0%nat (c_of_Z 2)) RecursionError /\
   raises store_x1_x2 (__neg__ 0%nat) RecursionError /\
   raises store_x1_x2 (__truediv__ 0%nat (c_of_Z 2)) RecursionError) /\
  (returns_new store_empties (__add__ 0%nat 1%nat) ∅ /\
   returns_new store_empties (__sub__ 0%nat 1%nat) ∅) /\
  returns_new store_empties (__neg__ 0%nat) ∅ /\
  preserved store_x1_x2 (__add__ 0%nat 1%nat store_x1_x2).2.
Proof.
  destruct (operators_leave_operands complex_laws store_x1_x2 0%nat 1%nat
              (one_entry "x" (c_of_Z 1)) (one_entry "x" (c_of_Z 2)) (c_of_Z 2)
              eq_refl eq_refl)
    as ((Hp & _) & _ & Hraise & _).
  destruct (operators_leave_operands complex_laws store_empties 0%nat 1%nat
              ∅ ∅ (c_of_Z 2) eq_refl eq_refl)
    as (_ & Hnew & _).
  destruct (Hraise x1_not_empty) as (R1 & R2 & R3 & R4 & R5 & R6).
  destruct (Hnew eq_refl) as (_ & _ & N3 & _ & N5 & _).
  split; [repeat split; try assumption; apply R6; reflexivity|].
  split; [apply N5; reflexivity|]. split; [exact N3 | exact Hp].
Defined.

(** [a - a] raises for [a = {x: 1}], and is falsy for the empty [a]. *)
Lemma additive_inverse_outcomes_witness :
  (raises store_x1_x2 (n <- __neg__ 0%nat ;; r <- __add__ 0%nat n ;; __bool__ r)
     RecursionError /\
   raises store_x1_x2 (r <- __sub__ 0%nat 0%nat ;; __bool__ r) RecursionError) /\
  ((n <- __neg__ 0%nat ;; r <- __add__ 0%nat n ;; __bool__ r) store_empties).1 = Ok false /\
  ((r <- __sub__ 0%nat 0%nat ;; __bool__ r) store_empties).1 = Ok false.
Proof.
  split.
  - apply (proj2 (additive_inverse_outcomes complex_laws store_x1_x2 0%nat
                    (one_entry "x" (c_of_Z 1)) eq_refl)).
    exact x1_not_empty.
  - apply (proj1 (additive_inverse_outcomes complex_laws store_empties 0%nat ∅ eq_refl)).
    reflexivity.
Defined.

(** [clean()] on [{x: 1e-10, y: 1, z: 1e-9+1e-20j}] removes [x] and [z],
    whose modulus rounds to the tolerance itself, and keeps [y]; on
    [{x: 1.5e308+1.5e308j}] it raises. *)
Lemma clean_default_tolerance_witness :
  (exists d',
     clean 0%nat None store_tiny = (Ok 0%nat, <[0%nat := d']> store_tiny) /\
     forall k (c : complex),
       d' !! k = Some c <->
       (<["z" := c_near_atol]> (<["x" := c_1e_10]> (one_entry "y" (c_of_Z 1)))) !! k
       = Some c /\
       exists x, c_abs c = Some x /\ SFleb x atol_default = false) /\
  clean 0%nat None store_huge = (Raise OverflowError, store_huge) /\
  c_abs c_near_atol = Some atol_default /\
  c_abs (c_of_Z 1) = Some (b64_of_Z 1) /\
  c_abs c_huge = None.
Proof.
  split.
  - apply (clean_default_tolerance store_tiny 0%nat _ eq_refl).
    vm_compute. reflexivity.
  - split.
    + apply (clean_default_tolerance store_huge 0%nat _ eq_refl).
      vm_compute. reflexivity.
    + vm_compute. repeat split.
Defined.

(** [a += a] raises for [a = {x: 1}], and returns the empty [a]. *)
Lemma iadd_self_outcomes_witness :
  raises store_x1_x2 (__iadd__ 0%nat 0%nat) RecursionError /\
  __iadd__ 0%nat 0%nat store_empties = (Ok 0%nat, store_empties ++ [∅]) /\
  ((r <- __mul__ 0%nat (c_of_Z 2) ;; __iadd__ 0%nat 0%nat ;;;
    __eq__ 0%nat (LinearDictRef r)) store_empties).1 = Ok (PyBool true).
Proof.
  split.
  - apply (proj2 (iadd_self_outcomes complex_laws store_x1_x2 0%nat
                    (one_entry "x" (c_of_Z 1)) (c_of_Z 2) eq_refl)).
    exact x1_not_empty.
  - apply (proj1 (iadd_self_outcomes complex_laws store_empties 0%nat ∅ (c_of_Z 2)
                    eq_refl)).
    reflexivity.
Defined.

(** [a["y"] = 2] on [{x: 1}]. *)
Lemma setitem_then_read_witness :
  exists h',
    __setitem__ 0%nat "y" (c_of_Z 2) store_x1_x2 = (Ok tt, h') /\
    __getitem__ 0%nat "y" h' = (Ok (reads (c_of_Z 2)), h') /\
    __contains__ 0%nat "y" h' = (Ok (s_nonzero (c_of_Z 2)), h') /\
    (forall k, k <> "y" ->
               (__getitem__ 0%nat k h').1 = (__getitem__ 0%nat k store_x1_x2).1) /\
    (forall b, b <> 0%nat -> h' !! b = store_x1_x2 !! b).
Proof.
  exact (setitem_then_read store_x1_x2 0%nat (one_entry "x" (c_of_Z 1)) "y" (c_of_Z 2)
           eq_refl).
Defined.

Lemma contains_iff_nonzero_item_witness :
  exists c, __getitem__ 0%nat "x" store_x1_x2 = (Ok c, store_x1_x2) /\
            __contains__ 0%nat "x" store_x1_x2 = (Ok (s_nonzero c), store_x1_x2).
Proof.
  exact (contains_iff_nonzero_item complex_laws store_x1_x2 0%nat
           (one_entry "x" (c_of_Z 1)) "x" eq_refl).
Defined.

(** The enumerations of [{x: 1, z: 0}] raise; those of the empty container
    are empty. *)
Lemma enumerations_only_when_empty_witness :
  (raises store_padded (keys 0%nat) RecursionError /\
   raises store_padded (__iter__ 0%nat) RecursionError /\
   raises store_padded (values 0%nat) RecursionError /\
   raises store_padded (items 0%nat) RecursionError /\
   raises store_padded (__len__ 0%nat) RecursionError /\
   raises store_padded (__bool__ 0%nat) RecursionError) /\
  ((keys 1%nat store_padded).1 = Ok [] /\ (__iter__ 1%nat store_padded).1 = Ok [] /\
   (values 1%nat store_padded).1 = Ok [] /\ (items 1%nat store_padded).1 = Ok [] /\
   (__len__ 1%nat store_padded).1 = Ok 0%nat /\ (__bool__ 1%nat store_padded).1 = Ok false).
Proof.
  split.
  - apply (proj2 (enumerations_only_when_empty complex_laws store_padded 0%nat _ eq_refl)).
    exact padded_not_empty.
  - apply (proj1 (enumerations_only_when_empty complex_laws store_padded 1%nat ∅ eq_refl)).
    reflexivity.
Defined.

(** [clean(atol=1e-9)] on [{x: 1e-10, y: 1, z: 1e-9+1e-20j}], and on
    [{x: 1.5e308+1.5e308j}]. *)
Lemma clean_only_removes_witness :
  (exists d',
     clean 0%nat (Some atol_default) store_tiny = (Ok 0%nat, <[0%nat := d']> store_tiny) /\
     d' ⊆ <["z" := c_near_atol]> (<["x" := c_1e_10]> (one_entry "y" (c_of_Z 1))) /\
     (forall k (c : complex),
        d' !! k = Some c <->
        (<["z" := c_near_atol]> (<["x" := c_1e_10]> (one_entry "y" (c_of_Z 1)))) !! k
        = Some c /\
        exists x, c_abs c = Some x /\ SFleb x atol_default = false) /\
     clean 0%nat (Some atol_default) (<[0%nat := d']> store_tiny)
     = (Ok 0%nat, <[0%nat := d']> store_tiny)) /\
  raises store_huge (clean 0%nat (Some atol_default)) OverflowError.
Proof.
  split.
  - apply (clean_only_removes store_tiny 0%nat _ atol_default eq_refl).
    vm_compute. reflexivity.
  - apply (clean_only_removes store_huge 0%nat _ atol_default eq_refl).
    vm_compute. reflexivity.
Defined.

(** [a.update([("x", 0)])] and [a["x"] = 0] on [{x: 1}]. *)
Lemma update_single_is_setitem_witness :
  update 0%nat [("x", c_of_Z 0)] store_x1_x2 = __setitem__ 0%nat "x" (c_of_Z 0) store_x1_x2.
Proof.
  apply (update_single_is_setitem complex_laws store_x1_x2 0%nat
           (one_entry "x" (c_of_Z 1)) "x" (c_of_Z 0) eq_refl x1_no_zero).
  vm_compute. reflexivity.
Defined.

(** [LinearDict.fromkeys(["a", "b", "a"], 1)], and the same with
    [1.5e308+1.5e308j]. *)
Lemma fromkeys_entries_witness :
  (exists d',
     fromkeys ["a"; "b"; "a"] (Some (c_of_Z 1)) empty_store
     = (Ok 0%nat, empty_store ++ [d']) /\
     (forall k, d' !! k = if decide (k ∈ ["a"; "b"; "a"]) then stored (c_of_Z 1) else None) /\
     (c_eqb (c_of_Z 1) (c_of_Z 0) = true -> d' = ∅)) /\
  (fromkeys ["a"; "b"; "a"] (Some c_huge) empty_store).1 = Raise OverflowError.
Proof.
  split.
  - apply (proj1 (fromkeys_entries complex_laws empty_store ["a"; "b"; "a"] (c_of_Z 1))).
    vm_compute. eauto.
  - apply (proj2 (fromkeys_entries complex_laws empty_store ["a"; "b"; "a"] c_huge)).
    + vm_compute. reflexivity.
    + discriminate.
Defined.

(** [a += e] and [a -= e] with [a = {x: 1, z: 0}] and [e] empty. *)
Lemma inplace_add_of_empty_witness :
  (exists h', __iadd__ 0%nat 1%nat store_padded = (Ok 0%nat, h') /\
              h' !! 0%nat
              = Some (drop_zeros (<["z" := c_of_Z 0]> (one_entry "x" (c_of_Z 1)))) /\
              forall b, b <> 0%nat -> preserved_at b store_padded h') /\
  (exists h', __isub__ 0%nat 1%nat store_padded = (Ok 0%nat, h') /\
              h' !! 0%nat
              = Some (drop_zeros (<["z" := c_of_Z 0]> (one_entry "x" (c_of_Z 1)))) /\
              forall b, b <> 0%nat -> preserved_at b store_padded h').
Proof.
  apply (inplace_add_of_empty complex_laws store_padded 0%nat 1%nat _ eq_refl eq_refl).
  vm_compute. reflexivity.
Defined.

(** A copy of the empty container, and of [{x: 1}]. *)
Lemma copy_is_independent_witness :
  (exists b h1,
     copy 1%nat store_padded = (Ok b, h1) /\ store_padded !! b = None /\
     h1 !! b = Some ∅ /\ h1 !! 1%nat = Some ∅ /\
     (exists h2, __setitem__ b "x" (c_of_Z 5) h1 = (Ok tt, h2) /\ h2 !! 1%nat = Some ∅) /\
     (exists h2, __setitem__ 1%nat "x" (c_of_Z 5) h1 = (Ok tt, h2) /\ h2 !! b = Some ∅)) /\
  raises store_x1_x2 (copy 0%nat) RecursionError.
Proof.
  split.
  - apply (proj1 (copy_is_independent complex_laws store_padded 1%nat ∅
                    "x" (c_of_Z 5) eq_refl)).
    reflexivity.
  - apply (proj2 (copy_is_independent complex_laws store_x1_x2 0%nat
                    (one_entry "x" (c_of_Z 1)) "x" (c_of_Z 5) eq_refl)).
    exact x1_not_empty.
Defined.

(** Two empty containers under the tolerance NaN; [{x: 1}] against itself
    under 1e-9. *)
Lemma approx_eq_outcomes_witness :
  (_approx_eq_ 0%nat (LinearDictRef 1%nat) b64_nan store_empties).1 = Ok (PyBool true) /\
  (_approx_eq_ 0%nat (LinearDictRef 0%nat) atol_default store_x1_x2).1
  = Raise RecursionError /\
  _approx_eq_ 0%nat NotALinearDict atol_default store_x1_x2
  = (Ok NotImplemented, store_x1_x2).
Proof.
  destruct (approx_eq_outcomes complex_laws store_empties 0%nat 1%nat ∅ ∅ b64_nan
              eq_refl eq_refl) as (Htrue & _).
  destruct (approx_eq_outcomes complex_laws store_x1_x2 0%nat 0%nat
              (one_entry "x" (c_of_Z 1)) (one_entry "x" (c_of_Z 1)) atol_default
              eq_refl eq_refl) as (_ & Hraise & Hn).
  split; [apply Htrue; reflexivity|].
  split; [apply Hraise; left; exact x1_not_empty | exact Hn].
Defined.

(** The term of [A] with the coefficient 1 under ['.3f'] is ["+1.000*A"]. *)
Lemma format_term_is_signed_witness :
  signed_term (_format_term (FixedPoint false 3) "A" (c_of_Z 1)) = true.
Proof.
  exact (format_term_is_signed (FixedPoint false 3) "A" (c_of_Z 1) eq_refl).
Defined.

(** The term of [x] with the coefficient 1e-10 is empty under ['.3f']. *)
Lemma tiny_terms_are_elided_witness :
  c_eqb c_1e_10 (c_of_Z 0) = false /\
  _format_term (FixedPoint false 3) "x" c_1e_10 = "".
Proof.
  split; [reflexivity|].
  apply (tiny_terms_are_elided (S := complex_Scalar) (FixedPoint false 3) "x" c_1e_10).
  vm_compute. reflexivity.
Defined.

(** [str] of the empty container, and of [{x: 1}]. *)
Lemma format_only_when_empty_witness :
  ((__format__ 1%nat (FixedPoint true 1) store_padded).1 = Ok "+0.0" /\
   (__str__ 1%nat store_padded).1 = Ok "0.000") /\
  raises store_x1_x2 (__format__ 0%nat (FixedPoint false 3)) RecursionError /\
  raises store_x1_x2 (__str__ 0%nat) RecursionError.
Proof.
  split.
  - apply (proj1 (format_only_when_empty complex_laws store_padded 1%nat ∅
                    (FixedPoint true 1) eq_refl)).
    reflexivity.
  - apply (proj2 (format_only_when_empty complex_laws store_x1_x2 0%nat
                    (one_entry "x" (c_of_Z 1)) (FixedPoint false 3) eq_refl)).
    exact x1_not_empty.
Defined.
